(** * IntelliLearn: job orchestration pipeline and frontend pages

    Shallow embedding of the parts of IntelliLearn that decide the
    caching, source-text, quiz, chunking, composite-job and page-state
    behaviour.  The frontend pages (ProcessPage, StudyAidsPage,
    TextProcessPage) are translated from their JavaScript source.  The
    backend job manager, content resolver, quiz validator, chunker and
    composite runner are not in this source tree (only their
    design notes and their callers are); they are modelled from the
    specification, and every such definition says so in its doc comment. *)

From Stdlib Require Import String Ascii.
From stdpp Require Import base list strings gmap.

Open Scope string_scope.

(* ===================================================================== *)
(** ** Strings: JavaScript truthiness and whitespace                      *)
(* ===================================================================== *)

Module Str.

(** Characters removed by [String.prototype.trim] (ASCII part): space,
    tab, line feed, vertical tab, form feed and carriage return. *)
Definition is_space (c : ascii) : bool :=
  Ascii.eqb c " "%char || Ascii.eqb c "009"%char ||
  Ascii.eqb c "010"%char || Ascii.eqb c "011"%char ||
  Ascii.eqb c "012"%char || Ascii.eqb c "013"%char.

(** [!s.trim()]: the string is empty or whitespace only. *)
Definition is_blank (s : string) : bool :=
  forallb is_space (list_ascii_of_string s).

(** A JavaScript string value is truthy iff it is non-empty. *)
Definition truthy (s : string) : bool :=
  negb (String.eqb s "").

(** The first present, non-empty value of a list of candidates. *)
Fixpoint first_truthy (cs : list (option string)) : option string :=
  match cs with
  | [] => None
  | Some s :: rest => if truthy s then Some s else first_truthy rest
  | None :: rest => first_truthy rest
  end.

(** [a || b] on values of type [string | null]. *)
Definition js_or (a b : option string) : option string :=
  match a with
  | Some s => if truthy s then a else b
  | None => b
  end.

Definition trim_left (l : list ascii) : list ascii :=
  (fix go l := match l with
               | c :: r => if is_space c then go r else l
               | [] => [] end) l.

(** [s.trim()], as a list of characters. *)
Definition trim (s : string) : list ascii :=
  rev (trim_left (rev (trim_left (list_ascii_of_string s)))).


End Str.

(* ===================================================================== *)
(** ** Backend job manager (modelled from the specification)            *)
(* ===================================================================== *)

Module Jobs.
Import Str.

Inductive operation := Transcribe | Summarize | Translate | QuizOp | NotesOp.

#[global] Instance operation_eq_dec : EqDecision operation.
Proof. solve_decision. Defined.

(** Document as the resolver sees it: raw extracted text, the transcript
    and summary already produced for it, and whether it is audio/video. *)
Record Document := mkDocument {
  doc_id : nat;
  doc_raw : option string;
  doc_transcript : option string;
  doc_summary : option string;
  doc_is_media : bool
}.

Inductive error := NoSourceTextError | SourceValidationError | ProviderError.

Inductive source := SrcText (s : string) | SrcMedia (id : nat).

Inductive status := Queued | Running | Completed | Failed.

Definition status_eqb (a b : status) : bool :=
  match a, b with
  | Queued, Queued | Running, Running
  | Completed, Completed | Failed, Failed => true
  | _, _ => false
  end.

(** Operation parameters, e.g. [("mode","concise")]. *)
Definition params := list (string * string).

(** Fingerprint: operation, input identity (document id, or the trimmed
    inline text when no document is referenced) and parameters. *)
Definition fingerprint := (operation * (nat + list ascii) * params)%type.

Definition fingerprint_of (op : operation) (doc : option Document)
    (text : option string) (ps : params) : fingerprint :=
  (op, match doc with
       | Some d => inl (doc_id d)
       | None => inr (match text with Some t => trim t | None => [] end)
       end, ps).

(** Modelled from the spec: the ContentResolver's precedence table (the
    resolver itself is backend code that is not in the sources). *)
Definition candidates (op : operation) (explicit : option string)
    (doc : option Document) : list (option string) :=
  let summary := doc ≫= doc_summary in
  let transcript := doc ≫= doc_transcript in
  let raw := doc ≫= doc_raw in
  match op with
  | Summarize => [explicit; transcript; raw]
  | Translate => [explicit; summary; transcript; raw]
  | QuizOp | NotesOp => [explicit; summary; raw]
  | Transcribe => []
  end.

(** A candidate is usable when it is present, non-empty and not
    whitespace only. *)
Definition usable (c : option string) : bool :=
  match c with Some s => negb (is_blank s) | None => false end.

Fixpoint first_usable (cs : list (option string)) : option string :=
  match cs with
  | [] => None
  | c :: rest => if usable c then c else first_usable rest
  end.

(** Modelled from the spec: [resolve(operation, explicit_text, document)].
    Transcription needs an audio/video document; the text operations take
    the first usable candidate or fail with [NoSourceTextError]. *)
Definition resolve (op : operation) (explicit : option string)
    (doc : option Document) : error + source :=
  match op with
  | Transcribe =>
      match doc with
      | Some d => if doc_is_media d then inr (SrcMedia (doc_id d))
                  else inl SourceValidationError
      | None => inl SourceValidationError
      end
  | _ =>
      match first_usable (candidates op explicit doc) with
      | Some s => inr (SrcText s)
      | None => inl NoSourceTextError
      end
  end.

Record Step := mkStep {
  step_name : operation;
  step_status : status;
  step_output : option string
}.

Record Job := mkJob {
  job_id : nat;
  job_fp : fingerprint;
  job_status : status;
  job_steps : list Step;
  job_result : option string;
  job_error : option error;
  job_created : nat;
  job_finished : nat
}.

(** Job store: the append-only job log, the next free id, a clock and the
    number of InferenceProvider invocations made so far. *)
Record State := mkState {
  jobs : list Job;
  next_id : nat;
  clock : nat;
  calls : nat
}.

Inductive tag := Existing | Fresh.

Definition is_completed_for (fp : fingerprint) (j : Job) : bool :=
  bool_decide (job_fp j = fp) && status_eqb (job_status j) Completed.

Definition find_completed (fp : fingerprint) (st : State) : option Job :=
  find (is_completed_for fp) (jobs st).

Definition lookup_job (id : nat) (st : State) : option Job :=
  find (fun j => Nat.eqb (job_id j) id) (jobs st).

Section Manager.

(** The InferenceProvider: a black box from (operation, content,
    parameters) to an output, [None] standing for a provider error. *)
Variable provider : operation -> source -> params -> option string.

(** Modelled from the spec: one execution of a simple operation,
    ContentResolver then InferenceProvider, recording one step.  A resolver
    failure marks the new Job failed before any provider call. *)
Definition execute (st : State) (op : operation) (doc : option Document)
    (text : option string) (ps : params) (fp : fingerprint) : Job * State :=
  let id := next_id st in
  let t := clock st in
  match resolve op text doc with
  | inl e =>
      let j := mkJob id fp Failed [] None (Some e) t (S t) in
      (j, mkState (jobs st ++ [j]) (S id) (S (S t)) (calls st))
  | inr src =>
      let j :=
        match provider op src ps with
        | Some out =>
            mkJob id fp Completed [mkStep op Completed (Some out)]
                  (Some out) None t (S t)
        | None =>
            mkJob id fp Failed [mkStep op Failed None]
                  None (Some ProviderError) t (S t)
        end in
      (j, mkState (jobs st ++ [j]) (S id) (S (S t)) (S (calls st)))
  end.

(** Modelled from the spec: [submit(operation, input, params, force)]. *)
Definition submit (st : State) (op : operation) (doc : option Document)
    (text : option string) (ps : params) (force : bool) : Job * tag * State :=
  let fp := fingerprint_of op doc text ps in
  match (if force then None else find_completed fp st) with
  | Some j => (j, Existing, st)
  | None => let '(j, st') := execute st op doc text ps fp in (j, Fresh, st')
  end.

End Manager.

End Jobs.

(* ===================================================================== *)
(** ** ProcessPage (src/unnamed/part_002)                                *)
(* ===================================================================== *)

Module Process.
Import Str.

(** The fields of a document object the page reads. *)
Record PDoc := mkPDoc {
  pd_id : nat;
  pd_text_content : option string;
  pd_mime_type : string
}.

Inductive action := ATranscribe | ASummary | ATranslate.

Record Results := mkResults {
  r_transcription : option string;
  r_summary : option string;
  r_translation : option string
}.

Definition empty_results : Results := mkResults None None None.

(** [processingMap]: { transcribe, summary, translate }. *)
Record Flags := mkFlags { f_transcribe : bool; f_summary : bool; f_translate : bool }.

Definition no_flags : Flags := mkFlags false false false.

Definition set_flag (a : action) (b : bool) (f : Flags) : Flags :=
  match a with
  | ATranscribe => mkFlags b (f_summary f) (f_translate f)
  | ASummary => mkFlags (f_transcribe f) b (f_translate f)
  | ATranslate => mkFlags (f_transcribe f) (f_summary f) b
  end.

(** The requests [runAction] sends through [apiService]. *)
Inductive request :=
  | ReqTranscribe (doc : nat) (force : bool)
  | ReqSummarize (doc : nat) (text : string) (mode : string) (force : bool)
  | ReqTranslate (doc : nat) (text : string) (target : string)
                 (src : option string) (force : bool).

(** A call in flight: the request and the values its closure captured
    ([summaryMode] and [translationParams] at the time of the call). *)
Record Pending := mkPending {
  p_action : action;
  p_request : request;
  p_mode : string;
  p_target : string;
  p_source_lang : string
}.

Record Page := mkPage {
  selected : option PDoc;
  prev_doc_id : option nat;                 (* prevDocIdRef.current *)
  results : Results;
  last_summary_mode_run : option string;
  last_translate_run : option (string * string);
  processing : Flags;
  summary_mode : string;
  target_lang : string;
  source_lang : string;
  pending : list Pending
}.

Definition with_results (p : Page) (r : Results) : Page :=
  mkPage (selected p) (prev_doc_id p) r (last_summary_mode_run p)
    (last_translate_run p) (processing p) (summary_mode p) (target_lang p)
    (source_lang p) (pending p).

Definition with_flags (p : Page) (f : Flags) : Page :=
  mkPage (selected p) (prev_doc_id p) (results p) (last_summary_mode_run p)
    (last_translate_run p) f (summary_mode p) (target_lang p)
    (source_lang p) (pending p).

Definition init_page : Page :=
  mkPage None None empty_results None None no_flags "concise" "en" "" [].

(** A numeric id is truthy iff it is not 0. *)
Definition id_truthy (n : nat) : bool := negb (Nat.eqb n 0).

(** Effect "Reset results when switching to a different document". *)
Definition reset_effect (p : Page) : Page :=
  match selected p with
  | Some d =>
      if id_truthy (pd_id d) && negb (bool_decide (prev_doc_id p = Some (pd_id d)))
      then mkPage (selected p) (Some (pd_id d)) empty_results None None no_flags
             (summary_mode p) (target_lang p) (source_lang p) (pending p)
      else p
  | None => p
  end.

Definition starts_with (pre s : string) : bool := String.prefix pre s.

(** Effect for audio/video documents; [seen] is the [results] value of the
    render the effect closes over, the update applies to the latest state. *)
Definition av_effect (seen : Results) (p : Page) : Page :=
  match selected p with
  | Some d =>
      let mime := pd_mime_type d in
      if starts_with "audio/" mime || starts_with "video/" mime then
        match pd_text_content d with
        | Some t =>
            if truthy t && negb (match r_transcription seen with
                                 | Some s => truthy s | None => false end)
            then with_results p (mkResults (Some t) (r_summary (results p))
                                   (r_translation (results p)))
            else p
        | None => p
        end
      else p
  | None => p
  end.

(** Clicking a document: [setSelectedDoc(doc)], then the effects of that
    render in declaration order. *)
Definition select (d : PDoc) (p : Page) : Page :=
  let p1 := mkPage (Some d) (prev_doc_id p) (results p) (last_summary_mode_run p)
              (last_translate_run p) (processing p) (summary_mode p)
              (target_lang p) (source_lang p) (pending p) in
  av_effect (results p1) (reset_effect p1).

(** Source text of the summary action:
    [results.transcription || selectedDoc.text_content || null]. *)
Definition summary_source (p : Page) (d : PDoc) : option string :=
  js_or (js_or (r_transcription (results p)) (pd_text_content d)) None.

(** Source text of the translate action:
    [results.summary || results.transcription || selectedDoc.text_content || null]. *)
Definition translate_source (p : Page) (d : PDoc) : option string :=
  js_or (js_or (js_or (r_summary (results p)) (r_transcription (results p)))
               (pd_text_content d)) None.

Definition nonnull_truthy (o : option string) : option string :=
  match o with Some s => if truthy s then Some s else None | None => None end.

(** The synchronous part of [runAction(action, force)]: the request sent,
    if any, and the page state while it is in flight. *)
Definition run_action (a : action) (force : bool) (p : Page) : option request * Page :=
  match selected p with
  | None => (None, p)
  | Some d =>
      let p1 := with_flags p (set_flag a true (processing p)) in
      let call r :=
        (Some r, mkPage (selected p1) (prev_doc_id p1) (results p1)
                   (last_summary_mode_run p1) (last_translate_run p1)
                   (processing p1) (summary_mode p1) (target_lang p1)
                   (source_lang p1)
                   (pending p1 ++ [mkPending a r (summary_mode p)
                                     (target_lang p) (source_lang p)])) in
      match a with
      | ATranscribe => call (ReqTranscribe (pd_id d) force)
      | ASummary =>
          match nonnull_truthy (summary_source p d) with
          | None => (None, with_flags p1 (set_flag a false (processing p1)))
          | Some s => call (ReqSummarize (pd_id d) s (summary_mode p) force)
          end
      | ATranslate =>
          match nonnull_truthy (translate_source p d) with
          | None => (None, with_flags p1 (set_flag a false (processing p1)))
          | Some s =>
              call (ReqTranslate (pd_id d) s (target_lang p)
                      (if truthy (source_lang p) then Some (source_lang p) else None)
                      force)
          end
      end
  end.

(** The continuation of [runAction] once the response arrives; [out] is the
    text the page extracts from the response. *)
Definition complete (c : Pending) (out : option string) (p : Page) : Page :=
  let r := results p in
  let set_r o upd := match o with
                     | Some t => if truthy t then upd t else r
                     | None => r end in
  let r' :=
    match p_action c with
    | ATranscribe => set_r out (fun t => mkResults (Some t) (r_summary r) (r_translation r))
    | ASummary => set_r out (fun t => mkResults (r_transcription r) (Some t) (r_translation r))
    | ATranslate => set_r out (fun t => mkResults (r_transcription r) (r_summary r) (Some t))
    end in
  let lsm := match p_action c with
             | ASummary => Some (p_mode c) | _ => last_summary_mode_run p end in
  let ltr := match p_action c with
             | ATranslate => Some (p_target c, p_source_lang c)
             | _ => last_translate_run p end in
  mkPage (selected p) (prev_doc_id p) r' lsm ltr
    (set_flag (p_action c) false (processing p)) (summary_mode p)
    (target_lang p) (source_lang p) (pending p).

(** UI events; [EResponse n] delivers the response to the [n]-th call in
    flight, [server] giving the text extracted from each response. *)
Inductive event := ESelect (d : PDoc) | ERun (a : action) (force : bool) | EResponse (n : nat).

Definition step (server : request -> option string) (p : Page) (e : event) : Page :=
  match e with
  | ESelect d => select d p
  | ERun a f => snd (run_action a f p)
  | EResponse n =>
      match pending p !! n with
      | Some c =>
          let p' := mkPage (selected p) (prev_doc_id p) (results p)
                      (last_summary_mode_run p) (last_translate_run p)
                      (processing p) (summary_mode p) (target_lang p)
                      (source_lang p) (delete n (pending p)) in
          complete c (server (p_request c)) p'
      | None => p
      end
  end.

Definition run_events (server : request -> option string) (p : Page)
    (es : list event) : Page :=
  fold_left (step server) es p.

End Process.

(* ===================================================================== *)
(** ** TextProcessPage (src/frontend/src/pages/TextProcessPage.js)        *)
(* ===================================================================== *)

Module TextProcess.
Import Str.

Inductive request := TextSummarize (text mode : string)
                   | TextTranslate (text target : string) (src : option string).


End TextProcess.

(* ===================================================================== *)
(** ** StudyAidsPage quiz answering (src/frontend/src/pages/StudyAidsPage.js) *)
(* ===================================================================== *)

Module StudyAids.

(** A question as normalised by [handleGenerateQuiz]. *)
Record Question := mkQuestion {
  q_id : nat;
  q_ordinal : nat;
  q_prompt : string;
  q_options : list string;
  q_answer_index : nat
}.

#[global] Instance Question_eq_dec : EqDecision Question.
Proof. solve_decision. Defined.

Record Quiz := mkQuiz { quiz_id : nat; quiz_questions : list Question }.

(** [quizAnswers]: questionId -> selected_index. *)
Abbreviation Answers := (gmap nat nat).

(** [handleQuizAnswer(question.id, optionIndex)]. *)
Definition handle_quiz_answer (qid idx : nat) (m : Answers) : Answers :=
  <[qid := idx]> m.

(** The radio clicks since [quizAnswers] was last reset to [{}]: each click
    is on a rendered question and an option index. *)
Definition answers_of (clicks : list (Question * nat)) : Answers :=
  fold_left (fun m c => handle_quiz_answer (q_id c.1) c.2 m) clicks ∅.

(** The option the user chose last for question [q]. *)
Definition user_choice (clicks : list (Question * nat)) (q : Question) : option nat :=
  fold_left (fun acc c => if bool_decide (c.1 = q) then Some c.2 else acc) clicks None.

(** One element of the attempt payload: [{ ordinal, selected_index }];
    [selected_index] is [quizAnswers[q.id]], undefined when absent. *)
Definition answer_entry (m : Answers) (q : Question) : nat * option nat :=
  (q_ordinal q, m !! q_id q).

(** [handleSubmitQuiz]: the answers array passed to [submitQuizAttempt],
    or [None] when nothing is submitted. *)
Definition handle_submit_quiz (quiz : option Quiz) (m : Answers)
    : option (nat * list (nat * option nat)) :=
  match quiz with
  | None => None
  | Some qz =>
      let unanswered := filter (fun q => m !! q_id q = None) (quiz_questions qz) in
      if Nat.ltb 0 (length unanswered) then None
      else Some (quiz_id qz, map (answer_entry m) (quiz_questions qz))
  end.

End StudyAids.

(* ===================================================================== *)
(** ** Quiz output validation (modelled from the specification)          *)
(* ===================================================================== *)

Module QuizValidation.
Import Str.

Record RawQuestion := mkRaw {
  rq_prompt : string;
  rq_options : list string;
  rq_answer_index : nat
}.

Definition lower (c : ascii) : ascii :=
  let n := nat_of_ascii c in
  if (Nat.leb 65 n) && (Nat.leb n 90) then ascii_of_nat (n + 32) else c.

(** Modelled from the spec: option text compared after trimming and
    case folding. *)
Definition normalize (s : string) : list ascii := map lower (trim s).

(** Modelled from the spec: near-duplicate options merged before
    acceptance, the first occurrence kept. *)
Fixpoint dedup_norm (seen : list (list ascii)) (opts : list string) : list string :=
  match opts with
  | [] => []
  | o :: rest =>
      if bool_decide (normalize o ∈ seen) then dedup_norm seen rest
      else o :: dedup_norm (normalize o :: seen) rest
  end.

Fixpoint index_of_norm (k : list ascii) (opts : list string) : option nat :=
  match opts with
  | [] => None
  | o :: rest =>
      if bool_decide (normalize o = k) then Some 0
      else S <$> index_of_norm k rest
  end.

(** The merged question: the correct answer moves to the kept copy of its
    text; an out-of-range answer index leaves nothing to point at. *)
Definition cleanup (q : RawQuestion) : option RawQuestion :=
  let opts := dedup_norm [] (rq_options q) in
  match rq_options q !! rq_answer_index q with
  | Some correct =>
      match index_of_norm (normalize correct) opts with
      | Some i => Some (mkRaw (rq_prompt q) opts i)
      | None => None
      end
  | None => None
  end.

(** Modelled from the spec: the structural check of a question. *)
Definition valid_question (q : RawQuestion) : bool :=
  bool_decide (2 <= length (rq_options q)) &&
  bool_decide (rq_answer_index q < length (rq_options q)) &&
  bool_decide (NoDup (map normalize (rq_options q))).

Definition validate (qs : list RawQuestion) : option (list RawQuestion) :=
  match mapM cleanup qs with
  | Some qs' => if forallb valid_question qs' then Some qs' else None
  | None => None
  end.

Inductive quiz_outcome := QuizCompleted (qs : list RawQuestion) | QuizFailed.

(** Modelled from the spec: a quiz Job.  [generate k] is the provider's
    [k]-th generation; a validation failure triggers one bounded
    regeneration, and a second failure fails the Job. *)
Definition quiz_job (generate : nat -> option (list RawQuestion)) : quiz_outcome :=
  match generate 0 ≫= validate with
  | Some qs => QuizCompleted qs
  | None =>
      match generate 1 ≫= validate with
      | Some qs => QuizCompleted qs
      | None => QuizFailed
      end
  end.

(** The rendering's [isCorrect]: the option indices shown as correct. *)
Definition correct_indices (q : RawQuestion) : list nat :=
  filter (fun i => i = rq_answer_index q) (seq 0 (length (rq_options q))).

End QuizValidation.

(* ===================================================================== *)
(** ** Single-flight lock registry (modelled from the specification)     *)
(* ===================================================================== *)

Module SingleFlight.
Import Jobs.

(** Modelled from the spec: the lock registry keyed by fingerprint.  The
    policy chosen is "join": a second caller for a fingerprint in flight
    waits for that execution's result. *)
Record Registry := mkRegistry {
  running : list fingerprint;               (* executions in flight *)
  waiters : list (nat * fingerprint)        (* callers joined to one *)
}.

Inductive sf_event :=
  | SfSubmit (caller : nat) (fp : fingerprint)
  | SfFinish (fp : fingerprint).

Inductive outcome :=
  | Started                                  (* provider invoked *)
  | Joined                                   (* waits on the execution *)
  | Released (callers : list nat)            (* result handed to them *)
  | Ignored.

(** One atomic step of the registry: lookup and registration happen
    together, so two callers cannot both find a fingerprint free. *)
Definition sf_step (r : Registry) (e : sf_event) : outcome * Registry :=
  match e with
  | SfSubmit c fp =>
      if bool_decide (fp ∈ running r)
      then (Joined, mkRegistry (running r) (waiters r ++ [(c, fp)]))
      else (Started, mkRegistry (running r ++ [fp]) (waiters r))
  | SfFinish fp =>
      if bool_decide (fp ∈ running r)
      then (Released (map fst (filter (fun w => w.2 = fp) (waiters r))),
            mkRegistry (filter (fun f => f ≠ fp) (running r))
                       (filter (fun w => w.2 ≠ fp) (waiters r)))
      else (Ignored, r)
  end.

Definition sf_run (r : Registry) (es : list sf_event) : Registry :=
  fold_left (fun r e => snd (sf_step r e)) es r.

Definition empty_registry : Registry := mkRegistry [] [].

End SingleFlight.

(* ===================================================================== *)
(** ** Chunker and stitcher (modelled from the specification)            *)
(* ===================================================================== *)

Module Chunking.
Import Str.

Definition is_boundary_char (c : ascii) : bool :=
  Ascii.eqb c "."%char || Ascii.eqb c "!"%char ||
  Ascii.eqb c "?"%char || Ascii.eqb c "010"%char.

(** Position [b] is a sentence boundary when the character before it ends
    a sentence or a paragraph. *)
Definition is_boundary (text : list ascii) (b : nat) : bool :=
  match b with
  | 0 => false
  | S k => match text !! k with Some c => is_boundary_char c | None => false end
  end.

(** The last boundary [b] with [lo < b <= hi]. *)
Definition last_boundary (text : list ascii) (lo hi : nat) : option nat :=
  fold_left (fun acc b => if is_boundary text b then Some b else acc)
    (seq (S lo) (hi - lo)) None.

(** Modelled from the spec: segments of at most [max_unit] characters, cut
    at the last sentence boundary past the overlap when there is one and
    hard-split otherwise; the next segment starts [overlap] characters
    before the cut.  Each segment carries the length of its overlap with
    the previous one. *)
Fixpoint chunk_go (fuel : nat) (text : list ascii) (max_unit overlap start ov : nat)
    : list (list ascii * nat) :=
  match fuel with
  | 0 => []
  | S fuel' =>
      if Nat.leb (length text) start then []
      else
        let cut :=
          if Nat.leb (length text) (start + max_unit) then length text
          else match last_boundary text (start + ov) (start + max_unit) with
               | Some b => b
               | None => start + max_unit
               end in
        let next := if Nat.ltb start (cut - overlap) then cut - overlap else cut in
        (firstn (cut - start) (skipn start text), ov)
          :: chunk_go fuel' text max_unit overlap next (cut - next)
  end.

Definition chunk (max_unit overlap : nat) (text : list ascii) : list (list ascii * nat) :=
  chunk_go (S (length text)) text max_unit overlap 0 0.

(** Putting the segments back together: each one without the part it
    shares with its predecessor. *)
Definition stitch_back (segs : list (list ascii * nat)) : list ascii :=
  concat (map (fun sg => skipn sg.2 sg.1) segs).

Fixpoint dedup_strings (seen : list string) (xs : list string) : list string :=
  match xs with
  | [] => []
  | x :: rest => if bool_decide (x ∈ seen) then dedup_strings seen rest
                 else x :: dedup_strings (x :: seen) rest
  end.

(** Modelled from the spec: the summarization path, one provider summary
    per segment merged with a deduplication pass. *)
Definition stitch_summaries (summarize : string -> string)
    (segs : list (list ascii * nat)) : string :=
  String.concat " "
    (dedup_strings [] (map (fun sg => summarize (string_of_list_ascii sg.1)) segs)).

(** Sentences of a text: maximal runs ending at a boundary character, with
    leading whitespace dropped. *)
Fixpoint sentences_go (cur : list ascii) (text : list ascii) : list string :=
  match text with
  | [] => if bool_decide (trim_left (rev cur) = []) then []
          else [string_of_list_ascii (trim_left (rev cur))]
  | c :: rest =>
      if is_boundary_char c
      then string_of_list_ascii (trim_left (rev (c :: cur))) :: sentences_go [] rest
      else sentences_go (c :: cur) rest
  end.

Definition sentences (s : string) : list string :=
  sentences_go [] (list_ascii_of_string s).

(** [t] occurs in [s]. *)
Definition contains (s t : string) : bool :=
  match String.index 0 t s with Some _ => true | None => false end.

End Chunking.

(* ===================================================================== *)
(** ** Composite jobs (modelled from the specification)                  *)
(* ===================================================================== *)

Module Composite.
Import Str Jobs.


Section Runner.

Variable provider : operation -> source -> params -> option string.
Variable ps : params.
Variable doc : option Document.
Variable explicit : option string.



End Runner.

End Composite.

(* ===================================================================== *)
(** ** Concrete inputs used by the witnesses and counterexamples         *)
(* ===================================================================== *)

Module Samples.
Import Jobs.

(** Document 42 of the spec's scenarios. *)
Definition doc42 : Document :=
  mkDocument 42 (Some "The mitochondria is the powerhouse of the cell.")
    None None false.

Definition doc42_summarized : Document :=
  mkDocument 42 (Some "The mitochondria is the powerhouse of the cell.")
    None (Some "Mitochondria power cells.") false.

(** A provider that always answers. *)
Definition echo_provider (op : operation) (src : source) (ps : params) : option string :=
  match src with SrcText s => Some s | SrcMedia _ => Some "transcript" end.

Definition quiz_params : params := [("num_questions", "5"); ("difficulty", "medium")].

Definition empty_state : State := mkState [] 0 0 0.

(** A store that already holds a completed quiz Job for document 42. *)
Definition cached_quiz_job : Job :=
  mkJob 0 (fingerprint_of QuizOp (Some doc42) None quiz_params) Completed
    [mkStep QuizOp Completed (Some "quiz#7")] (Some "quiz#7") None 0 1.

Definition cached_state : State := mkState [cached_quiz_job] 1 2 1.

End Samples.

(* ===================================================================== *)
(** ** JavaScript string primitives used by the frontend utilities        *)
(* ===================================================================== *)

Module JsString.

(** The ASCII characters of the [\s] class and of [String.prototype.trim]:
    tab, line feed, vertical tab, form feed, carriage return and space. *)
Definition js_space (c : ascii) : bool :=
  let n := nat_of_ascii c in
  Nat.eqb n 32 || (Nat.leb 9 n && Nat.leb n 13).

(** [toLowerCase] and [toUpperCase] on one ASCII character. *)
Definition to_lower_c (c : ascii) : ascii :=
  let n := nat_of_ascii c in
  if Nat.leb 65 n && Nat.leb n 90 then ascii_of_nat (n + 32) else c.

Definition to_upper_c (c : ascii) : ascii :=
  let n := nat_of_ascii c in
  if Nat.leb 97 n && Nat.leb n 122 then ascii_of_nat (n - 32) else c.

Definition to_lower (s : string) : string :=
  string_of_list_ascii (map to_lower_c (list_ascii_of_string s)).

Definition to_upper (s : string) : string :=
  string_of_list_ascii (map to_upper_c (list_ascii_of_string s)).

Fixpoint js_trim_left (l : list ascii) : list ascii :=
  match l with
  | c :: r => if js_space c then js_trim_left r else l
  | [] => []
  end.

(** [s.trim()] on a list of characters. *)
Definition js_trim_l (l : list ascii) : list ascii :=
  rev (js_trim_left (rev (js_trim_left l))).

Definition js_trim (s : string) : string :=
  string_of_list_ascii (js_trim_l (list_ascii_of_string s)).

Fixpoint starts_with_l (pre l : list ascii) : bool :=
  match pre, l with
  | [], _ => true
  | p :: pr, c :: r => Ascii.eqb p c && starts_with_l pr r
  | _ :: _, [] => false
  end.

(** [hay.includes(needle)]. *)
Fixpoint includes_l (hay needle : list ascii) : bool :=
  starts_with_l needle hay ||
  match hay with
  | [] => false
  | _ :: r => includes_l r needle
  end.

Definition includes (hay needle : string) : bool :=
  includes_l (list_ascii_of_string hay) (list_ascii_of_string needle).

(** [l.replace(pat, '')] with a string pattern: the first occurrence of
    [pat] is removed, nothing happens when there is none. *)
Fixpoint replace_first_l (pat l : list ascii) : list ascii :=
  if starts_with_l pat l then skipn (length pat) l
  else match l with
       | c :: r => c :: replace_first_l pat r
       | [] => []
       end.

(** [s.split('\n')]: the pieces between line feeds, empty ones included. *)
Fixpoint split_nl (l : list ascii) : list (list ascii) :=
  match l with
  | [] => [[]]
  | c :: r =>
      if Ascii.eqb c "010"%char then [] :: split_nl r
      else match split_nl r with
           | w :: ws => (c :: w) :: ws
           | [] => [[c]]
           end
  end.

(** [arr.join('\n')]. *)
Fixpoint join_nl (ls : list (list ascii)) : list ascii :=
  match ls with
  | [] => []
  | [w] => w
  | w :: ws => w ++ "010"%char :: join_nl ws
  end.

(** [s.split(/\s+/)]: the pieces between maximal runs of whitespace; with
    [in_sep] the current position continues a run of separators. *)
Fixpoint split_ws_go (l : list ascii) (in_sep : bool) : list (list ascii) :=
  match l with
  | [] => [[]]
  | c :: r =>
      if js_space c then
        if in_sep then split_ws_go r true else [] :: split_ws_go r true
      else match split_ws_go r false with
           | w :: ws => (c :: w) :: ws
           | [] => [[c]]
           end
  end.

Definition split_ws (l : list ascii) : list (list ascii) := split_ws_go l false.

End JsString.

(* ===================================================================== *)
(** ** Language helpers (src/frontend/src/utils/languageUtils.js)         *)
(* ===================================================================== *)

Module LanguageUtils.
Import Str JsString.

(** [LANGUAGE_MAP], in its insertion order (the order of
    [Object.entries]). *)
Definition LANGUAGE_MAP : list (string * string) :=
  [("en", "English"); ("es", "Spanish"); ("fr", "French"); ("de", "German");
   ("zh", "Chinese"); ("ja", "Japanese"); ("ko", "Korean");
   ("pt", "Portuguese"); ("ru", "Russian"); ("ar", "Arabic"); ("hi", "Hindi")].

(** A value read from the object: one of its strings, or a member inherited
    from [Object.prototype] (a function or an object, never a string). *)
Inductive jsval := JStr (s : string) | JInherited (name : string).

Definition jsval_truthy (v : jsval) : bool :=
  match v with JStr s => truthy s | JInherited _ => true end.

(** The members of [Object.prototype] whose names are all lower case, the
    only ones a key produced by [toLowerCase] can hit. *)
Definition prototype_lower_members : list string := ["constructor"; "__proto__"].

Fixpoint assoc (k : string) (m : list (string * string)) : option string :=
  match m with
  | [] => None
  | (k', v) :: r => if String.eqb k k' then Some v else assoc k r
  end.

(** [LANGUAGE_MAP[k]]: an own property, else the prototype chain, else
    [undefined]. *)
Definition map_get (k : string) : option jsval :=
  match assoc k LANGUAGE_MAP with
  | Some v => Some (JStr v)
  | None => if existsb (String.eqb k) prototype_lower_members
            then Some (JInherited k) else None
  end.

(** [getLanguageName(code)]. *)
Definition getLanguageName (code : string) : jsval :=
  if negb (truthy code) then JStr ""
  else match map_get (to_lower code) with
       | Some v => if jsval_truthy v then v else JStr (to_upper code)
       | None => JStr (to_upper code)
       end.

(** [getLanguageCode(name)]. *)
Definition getLanguageCode (name : string) : string :=
  if negb (truthy name) then ""
  else match List.find (fun e => String.eqb (to_lower e.2) (to_lower name))
               LANGUAGE_MAP with
       | Some e => e.1
       | None => name
       end.

End LanguageUtils.

(* ===================================================================== *)
(** ** FlashNote formatting (src/frontend/src/utils/languageUtils.js)     *)
(* ===================================================================== *)

Module NoteFormat.
Import Str JsString.

Inductive line_type := H1 | H2 | H3 | Bullet | Numbered | Text | Empty.

(** [{ type, content }]. *)
Record fline := mkFline { ltype : line_type; lcontent : list ascii }.

(** The result of [formatNoteContent]: the string [''] or an array. *)
Inductive formatted := FString (s : string) | FLines (ls : list fline).

Definition is_digit (c : ascii) : bool :=
  let n := nat_of_ascii c in Nat.leb 48 n && Nat.leb n 57.

Fixpoint span_digits (l : list ascii) : list ascii * list ascii :=
  match l with
  | c :: r => if is_digit c then let '(ds, rest) := span_digits r in (c :: ds, rest)
              else ([], l)
  | [] => ([], [])
  end.

(** [/^\d+\.\s/]: on a match, the rest of the line after it. *)
Definition numbered_prefix (l : list ascii) : option (list ascii) :=
  let '(ds, rest) := span_digits l in
  match ds, rest with
  | _ :: _, "."%char :: c :: r => if js_space c then Some r else None
  | _, _ => None
  end.

Definition format_line (line : list ascii) : fline :=
  if starts_with_l (list_ascii_of_string "### ") line then
    mkFline H3 (replace_first_l (list_ascii_of_string "### ") line)
  else if starts_with_l (list_ascii_of_string "## ") line then
    mkFline H2 (replace_first_l (list_ascii_of_string "## ") line)
  else if starts_with_l (list_ascii_of_string "# ") line then
    mkFline H1 (replace_first_l (list_ascii_of_string "# ") line)
  else if starts_with_l (list_ascii_of_string "- ") line then
    mkFline Bullet (replace_first_l (list_ascii_of_string "- ") line)
  else match numbered_prefix line with
       | Some r => mkFline Numbered r
       | None =>
           match js_trim_l line with
           | _ :: _ => mkFline Text line
           | [] => mkFline Empty []
           end
       end.

(** [formatNoteContent(content)]. *)
Definition formatNoteContent (content : string) : formatted :=
  if negb (truthy content) then FString ""
  else FLines (map format_line (split_nl (list_ascii_of_string content))).

(** The markdown line an entry of [formatNoteContent] stands for: the marker
    its type records (numbered items with the label ["1."] that
    [renderFormattedContent] draws), then its content; nothing for empty
    lines. It states that formatting keeps the text of a note. *)
Definition shown (e : fline) : list ascii :=
  match ltype e with
  | H3 => list_ascii_of_string "### " ++ lcontent e
  | H2 => list_ascii_of_string "## " ++ lcontent e
  | H1 => list_ascii_of_string "# " ++ lcontent e
  | Bullet => list_ascii_of_string "- " ++ lcontent e
  | Numbered => list_ascii_of_string "1. " ++ lcontent e
  | Text => lcontent e
  | Empty => []
  end.

(** [truncateText(text, maxLength)]. *)
Definition truncateText (text : string) (maxLength : nat) : string :=
  if negb (truthy text) || Nat.leb (String.length text) maxLength then text
  else substring 0 maxLength text ++ "...".

End NoteFormat.

(* ===================================================================== *)
(** ** Document search box (ProcessPage and StudyAidsPage)                *)
(* ===================================================================== *)

Module DocSearch.
Import Str JsString.

(** The name fields of a listed document. *)
Record SDoc := mkSDoc { sd_original_name : option string; sd_filename : option string }.

(** [(d.original_name || d.filename || '')]. *)
Definition display_name (d : SDoc) : string :=
  match js_or (js_or (sd_original_name d) (sd_filename d)) (Some "") with
  | Some s => s
  | None => ""
  end.

(** The [documents.filter(...)] of the document list. *)
Definition search_keep (docSearch : string) (d : SDoc) : bool :=
  let q := to_lower (js_trim docSearch) in
  if negb (truthy q) then true
  else includes (to_lower (display_name d)) q.

Definition search_filter (docSearch : string) (docs : list SDoc) : list SDoc :=
  List.filter (search_keep docSearch) docs.

End DocSearch.

(* ===================================================================== *)
(** ** ProcessPage buttons (src/unnamed/part_002)                          *)
(* ===================================================================== *)

Module ProcessUI.
Import Str Process.

Definition opt_truthy (o : option string) : bool :=
  match o with Some s => truthy s | None => false end.

(** [disabled] of the Run Summary button. *)
Definition summary_disabled (p : Page) (d : PDoc) : bool :=
  f_summary (processing p) ||
  negb (opt_truthy (js_or (pd_text_content d) (r_transcription (results p)))) ||
  (opt_truthy (r_summary (results p)) &&
   bool_decide (last_summary_mode_run p = Some (summary_mode p))).

(** [disabled] of the Run Translation button. *)
Definition translate_disabled (p : Page) (d : PDoc) : bool :=
  f_translate (processing p) ||
  negb (opt_truthy (js_or (js_or (r_summary (results p)) (r_transcription (results p)))
                          (pd_text_content d))) ||
  (opt_truthy (r_translation (results p)) &&
   match last_translate_run p with
   | Some (t, s) => String.eqb t (target_lang p) && String.eqb s (source_lang p)
   | None => false
   end).

(** [typeBadge(mime)]. *)
Definition typeBadge (mime : string) : string :=
  if negb (truthy mime) then "file"
  else if starts_with "audio/" mime then "audio"
  else if starts_with "video/" mime then "video"
  else if starts_with "image/" mime then "image"
  else if JsString.includes mime "pdf" then "pdf"
  else if starts_with "text/" mime then "text"
  else "document".

(** The media test of the Transcribe button:
    [selectedDoc.mime_type && (startsWith('audio/') || startsWith('video/'))]. *)
Definition transcribable_mime (mime : string) : bool :=
  truthy mime && (starts_with "audio/" mime || starts_with "video/" mime).

Definition flag_of (a : action) (f : Flags) : bool :=
  match a with
  | ATranscribe => f_transcribe f | ASummary => f_summary f | ATranslate => f_translate f
  end.

Definition result_of (a : action) (r : Results) : option string :=
  match a with
  | ATranscribe => r_transcription r | ASummary => r_summary r
  | ATranslate => r_translation r
  end.

End ProcessUI.

(* ===================================================================== *)
(** ** Request bodies (src/frontend/src/services/apiService.js)           *)
(* ===================================================================== *)

Module ApiService.
Import Str Process.

Inductive jvalue := JNum (n : nat) | JText (s : string) | JBool (b : bool).

(** A JSON request body, its keys in insertion order. *)
Abbreviation payload := (list (string * jvalue)).

Definition opt_text_entry (key : string) (o : option string) : payload :=
  match o with Some s => if truthy s then [(key, JText s)] else [] | None => [] end.

Definition doc_entry (documentId : nat) : payload :=
  if id_truthy documentId then [("document_id", JNum documentId)] else [].

(** [transcribe(documentId, force)]. *)
Definition transcribe_payload (documentId : nat) (force : bool) : payload :=
  [("document_id", JNum documentId); ("force", JBool force)].

(** [summarize(documentId, text, mode, force)]. *)
Definition summarize_payload (documentId : nat) (text : option string) (mode : string)
    (force : bool) : payload :=
  [("mode", JText mode); ("force", JBool force)] ++ doc_entry documentId ++
  opt_text_entry "text" text.

(** [translate(documentId, text, targetLang, sourceLang, force)]. *)
Definition translate_payload (documentId : nat) (text : option string) (targetLang : string)
    (sourceLang : option string) (force : bool) : payload :=
  [("target_lang", JText targetLang); ("force", JBool force)] ++ doc_entry documentId ++
  opt_text_entry "text" text ++ opt_text_entry "source_lang" sourceLang.

(** The endpoint and body of the call [runAction] makes for a request. *)
Definition request_payload (r : request) : string * payload :=
  match r with
  | ReqTranscribe d f => ("/transcribe", transcribe_payload d f)
  | ReqSummarize d t m f => ("/summarize", summarize_payload d (Some t) m f)
  | ReqTranslate d t tl sl f => ("/translate", translate_payload d (Some t) tl sl f)
  end.

End ApiService.

(* ===================================================================== *)
(** ** StudyAidsPage quiz generation (src/frontend/src/pages/StudyAidsPage.js) *)
(* ===================================================================== *)

Module QuizGen.
Import StudyAids.

(** The ids a [generateQuiz] response may carry: [gen?.quiz?.id],
    [gen?.quiz_id] and [gen?.id]; absent ones are [None]. *)
Record GenResponse := mkGen {
  gen_quiz_dot_id : option nat;
  gen_quiz_id : option nat;
  gen_id : option nat
}.

(** A question of the [getQuiz] response. *)
Record FullQuestion := mkFullQuestion {
  fq_id : nat;
  fq_ordinal : nat;
  fq_prompt : string;
  fq_options : option (list string);
  fq_answer_index : nat
}.

Record FullQuiz := mkFullQuiz { full_id : nat; full_questions : option (list FullQuestion) }.

(** A number value is truthy iff it is present and not 0. *)
Definition num_or (a b : option nat) : option nat :=
  match a with Some n => if Nat.eqb n 0 then b else a | None => b end.

(** [gen?.quiz?.id || gen?.quiz_id || gen?.id], truthy or [None]. *)
Definition quiz_id_of (gen : GenResponse) : option nat :=
  match num_or (num_or (gen_quiz_dot_id gen) (gen_quiz_id gen)) (gen_id gen) with
  | Some n => if Nat.eqb n 0 then None else Some n
  | None => None
  end.

(** The [normalized] quiz (its title is not read by any code modelled here). *)
Definition normalize (full : FullQuiz) : Quiz :=
  mkQuiz (full_id full)
    (map (fun q => mkQuestion (fq_id q) (fq_ordinal q) (fq_prompt q)
                     (match fq_options q with Some o => o | None => [] end)
                     (fq_answer_index q))
         (match full_questions full with Some qs => qs | None => [] end)).

Record SAState := mkSA {
  sa_selected : option nat;                 (* selectedDocument?.id *)
  sa_quizzes : gmap nat Quiz;               (* quizzesByDoc *)
  sa_loading : gmap nat bool;               (* loadingQuizByDoc *)
  sa_answers : Answers;                     (* quizAnswers *)
  sa_submitted : bool;
  sa_score : option nat
}.

(** Clicking a document in the list: [setSelectedDocument(doc)]. *)
Definition select_document (id : nat) (st : SAState) : SAState :=
  mkSA (Some id) (sa_quizzes st) (sa_loading st) (sa_answers st)
    (sa_submitted st) (sa_score st).

(** The synchronous part of [handleGenerateQuiz]: the captured [docId]. *)
Definition generate_start (st : SAState) : option nat * SAState :=
  match sa_selected st with
  | None => (None, st)
  | Some docId =>
      (Some docId, mkSA (sa_selected st) (sa_quizzes st)
                     (<[docId := true]> (sa_loading st)) (sa_answers st)
                     (sa_submitted st) (sa_score st))
  end.

(** The rest of [handleGenerateQuiz] for [docId], once [generateQuiz]
    answered [gen]; [getQuiz] answers [fetch quizId]. *)
Definition generate_finish (docId : nat) (gen : GenResponse)
    (fetch : nat -> FullQuiz) (st : SAState) : SAState :=
  match quiz_id_of gen with
  | None =>
      mkSA (sa_selected st) (sa_quizzes st)
        (<[docId := false]> (<[docId := false]> (sa_loading st)))
        (sa_answers st) (sa_submitted st) (sa_score st)
  | Some qid =>
      mkSA (sa_selected st) (<[docId := normalize (fetch qid)]> (sa_quizzes st))
        (<[docId := false]> (sa_loading st)) ∅ false None
  end.

(** [disabled] of the Submit Quiz button for the displayed [quiz]. *)
Definition submit_disabled (st : SAState) (docId : nat) (qz : Quiz) : bool :=
  match sa_loading st !! docId with Some b => b | None => false end ||
  negb (Nat.eqb (size (sa_answers st)) (length (quiz_questions qz))).

End QuizGen.

(* ===================================================================== *)
(** ** JobDetail single-flight caches (src/frontend/src/pages/JobDetail.js) *)
(* ===================================================================== *)

Module PromiseCache.

Section Cache.
Context {K : Type} `{Countable K}.

(** The [Map] from key to promise, and the keys passed to the API so far;
    the promise of the [i]-th API call is [i]. *)
Record CacheState := mkCache { cache : gmap K nat; api_calls : list K }.

(** [let p = cache.get(k); if (!p) { p = api(k); cache.set(k, p); }]:
    the promise awaited. A promise object is always truthy. *)
Definition cached_get (k : K) (st : CacheState) : nat * CacheState :=
  match cache st !! k with
  | Some p => (p, st)
  | None =>
      let p := length (api_calls st) in
      (p, mkCache (<[k := p]> (cache st)) (api_calls st ++ [k]))
  end.

(** A sequence of loads: the promises awaited, in order, and the final state. *)
Fixpoint run_loads (ks : list K) (st : CacheState) : list nat * CacheState :=
  match ks with
  | [] => ([], st)
  | k :: rest =>
      let '(p, st1) := cached_get k st in
      let '(ps, st2) := run_loads rest st1 in
      (p :: ps, st2)
  end.

Definition empty_cache : CacheState := mkCache ∅ [].

(** The keys of [ks] in the order of their first occurrence, leaving out
    those already in [seen]. *)
Fixpoint first_uses (seen ks : list K) : list K :=
  match ks with
  | [] => []
  | k :: rest =>
      if bool_decide (k ∈ seen) then first_uses seen rest
      else k :: first_uses (seen ++ [k]) rest
  end.

(** The invariant the cache keeps: each key is passed to the API once, and
    the cache maps a key to the index of its call. *)
Definition cache_inv (st : CacheState) : Prop :=
  NoDup (api_calls st) /\
  forall k p, cache st !! k = Some p <-> api_calls st !! p = Some k.

End Cache.

End PromiseCache.

(* ===================================================================== *)
(** ** TextProcessPage word counter (src/frontend/src/pages/TextProcessPage.js) *)
(* ===================================================================== *)

Module WordCount.
Import JsString.

(** [text.trim().split(/\s+/).filter(word => word.length > 0).length]. *)
Definition wordCount (text : string) : nat :=
  length (List.filter (fun w => Nat.ltb 0 (length w))
            (split_ws (js_trim_l (list_ascii_of_string text)))).

(** The number of maximal runs of non-whitespace characters; [after_sep]
    tells whether the previous character was whitespace (or absent). *)
Fixpoint runs (l : list ascii) (after_sep : bool) : nat :=
  match l with
  | [] => 0
  | c :: r => if js_space c then runs r true
              else (if after_sep then 1 else 0) + runs r false
  end.

(** Whether the text starts with a non-whitespace character. *)
Definition starts_word (l : list ascii) : nat :=
  match l with c :: _ => if js_space c then 0 else 1 | [] => 0 end.

End WordCount.

(* ===================================================================== *)
(** ** Sample inputs for the properties of the pages                      *)
(* ===================================================================== *)

Module ExtraSamples.
Import Str NoteFormat DocSearch Process ProcessUI StudyAids QuizGen.

Definition sample_note : string :=
  "### Key ideas
- Cells divide
Mitosis has four phases.".

Definition sample_docs : list SDoc :=
  [mkSDoc (Some "Biology notes.pdf") None; mkSDoc None (Some "lecture.mp3");
   mkSDoc (Some "") (Some "Cell biology.txt")].

Definition notes_doc : PDoc := mkPDoc 7 (Some "Cells divide by mitosis.") "text/plain".

Definition page_notes : Page := select notes_doc init_page.

Definition pending_summary : Pending :=
  mkPending ASummary (ReqSummarize 7 "Cells divide by mitosis." "concise" false)
    "concise" "en" "".

Definition pending_translate : Pending :=
  mkPending ATranslate (ReqTranslate 7 "Cells divide by mitosis." "en" None false)
    "concise" "en" "".

Definition page_summarizing : Page := snd (run_action ASummary false page_notes).

Definition page_summarized : Page :=
  complete pending_summary (Some "Mitosis splits cells.") page_summarizing.

Definition sample_fetch (n : nat) : FullQuiz :=
  mkFullQuiz n (Some [mkFullQuestion 1 1 "Where is DNA stored?" None 0]).

Definition gen_with_id : GenResponse := mkGen (Some 0) None (Some 12).

Definition gen_without_id : GenResponse := mkGen (Some 0) (Some 0) None.

(** Document 3 displayed, with one answer given; a quiz for document 4 was
    requested earlier. *)
Definition sa_busy : SAState :=
  mkSA (Some 3) ∅ (<[4 := true]> ∅) (<[5 := 1]> ∅) false None.

(** The displayed quiz has question 1; the answer to question 9 is left
    from another document's quiz. *)
Definition sa_stale : SAState :=
  mkSA (Some 4) (<[4 := normalize (sample_fetch 12)]> ∅) ∅
    (<[1 := 0]> (<[9 := 2]> ∅)) false None.

Definition sample_run := run_action ATranslate false page_notes.

End ExtraSamples.

(* ===================================================================== *)
(** * Theorems                                                           *)
(* ===================================================================== *)

Module JobsFacts.
Import Str Jobs Samples.
Local Open Scope list_scope.

Lemma find_app_single {A} (f : A -> bool) (l : list A) (x : A) :
  f x = false -> find f (l ++ [x]) = find f l.
Proof.
  intros Hx. induction l as [|y l IH]; simpl.
  - by rewrite Hx.
  - destruct (f y); [done | exact IH].
Qed.

Lemma find_app_none {A} (f : A -> bool) (l : list A) (x : A) :
  find f l = None -> f x = true -> find f (l ++ [x]) = Some x.
Proof.
  intros Hl Hx. induction l as [|y l IH]; simpl in *.
  - by rewrite Hx.
  - destruct (f y); [discriminate | exact (IH Hl)].
Qed.

Section Exec.
Variable provider : operation -> source -> params -> option string.

Lemma execute_shape st op doc text ps fp :
  let '(j, st') := execute provider st op doc text ps fp in
  job_fp j = fp /\ job_id j = next_id st /\ jobs st' = jobs st ++ [j] /\
  next_id st' = S (next_id st) /\
  calls st' = match resolve op text doc with
              | inl _ => calls st | inr _ => S (calls st) end.
Proof.
  unfold execute. destruct (resolve op text doc) as [e|src]; simpl.
  - repeat split.
  - destruct (provider op src ps); simpl; repeat split.
Qed.

Lemma execute_completed_fp st op doc text ps fp :
  let '(j, st') := execute provider st op doc text ps fp in
  job_status j = Completed -> is_completed_for fp j = true.
Proof.
  unfold execute. destruct (resolve op text doc) as [e|src]; simpl.
  - discriminate.
  - destruct (provider op src ps); simpl; [|discriminate].
    intros _. unfold is_completed_for. simpl. by rewrite bool_decide_eq_true_2.
Qed.

End Exec.

(** Claim C1 as stated: two [force=false] submissions give back the same
    completed Job tagged [existing] with exactly one provider call.  It
    fails when the store already held a completed Job for the fingerprint:
    both calls return it and the provider is never invoked. *)
Lemma submit_twice_exactly_once_cex :
  ~ (forall (provider : operation -> source -> params -> option string)
            st op doc text ps j1 t1 st1 j2 t2 st2,
        submit provider st op doc text ps false = (j1, t1, st1) ->
        submit provider st1 op doc text ps false = (j2, t2, st2) ->
        j2 = j1 /\ t2 = Existing /\ job_status j2 = Completed /\
        calls st2 = S (calls st)).
Proof.
  intros H.
  destruct (H echo_provider cached_state QuizOp (Some doc42) None quiz_params
              cached_quiz_job Existing cached_state
              cached_quiz_job Existing cached_state eq_refl eq_refl)
    as (_ & _ & _ & Hc).
  simpl in Hc. discriminate.
Qed.

(** Claim C1 (amended): if the first of two [force=false] submissions of
    the same request ends with a completed Job, the second returns that
    same Job (same id and result) tagged [existing] and makes no provider
    call; across both calls the provider runs exactly once when no
    completed Job with that fingerprint existed before, and never when one
    did. *)
Theorem submit_twice_idempotent
    (provider : operation -> source -> params -> option string)
    st op doc text ps j1 t1 st1 j2 t2 st2 :
  submit provider st op doc text ps false = (j1, t1, st1) ->
  submit provider st1 op doc text ps false = (j2, t2, st2) ->
  job_status j1 = Completed ->
  j2 = j1 /\ t2 = Existing /\ st2 = st1 /\
  calls st2 = calls st +
    match find_completed (fingerprint_of op doc text ps) st with
    | Some _ => 0 | None => 1 end.
Proof.
  unfold submit. set (fp := fingerprint_of op doc text ps).
  destruct (find_completed fp st) as [j0|] eqn:Hf.
  - intros [= <- <- <-]. rewrite Hf. intros [= <- <- <-] _.
    repeat split. lia.
  - pose proof (execute_shape provider st op doc text ps fp) as Hs.
    pose proof (execute_completed_fp provider st op doc text ps fp) as Hc.
    destruct (execute provider st op doc text ps fp) as [j st'] eqn:He.
    intros [= <- <- <-]. intros H2 Hdone.
    destruct Hs as (_ & _ & Hjobs & _ & Hcalls).
    assert (Hfind : find_completed fp st' = Some j).
    { unfold find_completed. rewrite Hjobs. apply find_app_none; [exact Hf | exact (Hc Hdone)]. }
    rewrite Hfind in H2. injection H2 as <- <- <-.
    repeat split.
    destruct (resolve op text doc) as [e|src] eqn:Hr.
    + unfold execute in He. rewrite Hr in He. injection He as <- _. discriminate.
    + lia.
Qed.

Lemma submit_twice_idempotent_witness :
  job_status (mkJob 0 (fingerprint_of QuizOp (Some doc42) None quiz_params) Completed
     [mkStep QuizOp Completed (Some "The mitochondria is the powerhouse of the cell.")]
     (Some "The mitochondria is the powerhouse of the cell.") None 0 1) = Completed /\
  calls (snd (submit echo_provider
    (snd (submit echo_provider empty_state QuizOp (Some doc42) None quiz_params false))
    QuizOp (Some doc42) None quiz_params false)) = 1.
Proof.
  split; [reflexivity|].
  pose proof (submit_twice_idempotent echo_provider empty_state QuizOp (Some doc42) None
              quiz_params _ _ _ _ _ _ eq_refl eq_refl eq_refl) as (_ & _ & _ & Hc).
  exact Hc.
Defined.


(** Claim C2: with [force=true], [submit] creates a new Job (a fresh id,
    appended to the store) even when a completed Job with the same
    fingerprint exists, and that prior Job, every field included, stays in
    the store and is still what its id looks up. *)
Theorem submit_force_creates_new_job
    (provider : operation -> source -> params -> option string)
    st op doc text ps j0 j t st' :
  (forall j', In j' (jobs st) -> job_id j' < next_id st) ->
  In j0 (jobs st) ->
  job_status j0 = Completed ->
  job_fp j0 = fingerprint_of op doc text ps ->
  submit provider st op doc text ps true = (j, t, st') ->
  t = Fresh /\ job_id j = next_id st /\ job_id j <> job_id j0 /\
  job_fp j = job_fp j0 /\
  jobs st' = jobs st ++ [j] /\ In j0 (jobs st') /\
  lookup_job (job_id j0) st' = lookup_job (job_id j0) st.
Proof.
  intros Hwf Hin _ Hfp. unfold submit; simpl.
  pose proof (execute_shape provider st op doc text ps
                (fingerprint_of op doc text ps)) as Hs.
  destruct (execute provider st op doc text ps _) as [j1 st1].
  intros [= <- <- <-].
  destruct Hs as (Hjfp & Hid & Hjobs & _ & _).
  pose proof (Hwf j0 Hin) as Hlt.
  assert (Hne : job_id j1 <> job_id j0) by lia.
  repeat split; try done.
  - by rewrite Hjfp.
  - rewrite Hjobs. apply in_or_app. by left.
  - unfold lookup_job. rewrite Hjobs. apply find_app_single.
    by apply Nat.eqb_neq.
Qed.

Lemma submit_force_creates_new_job_witness :
  (forall j', In j' (jobs cached_state) -> job_id j' < next_id cached_state) /\
  In cached_quiz_job (jobs cached_state) /\
  job_status cached_quiz_job = Completed /\
  job_fp cached_quiz_job = fingerprint_of QuizOp (Some doc42) None quiz_params /\
  job_id (fst (fst (submit echo_provider cached_state QuizOp (Some doc42) None
                      quiz_params true))) = 1.
Proof.
  assert (Hwf : forall j', In j' (jobs cached_state) -> job_id j' < next_id cached_state).
  { intros j' [<-|[]]. simpl. lia. }
  assert (Hin : In cached_quiz_job (jobs cached_state)) by (left; reflexivity).
  split; [exact Hwf|]. split; [exact Hin|]. split; [reflexivity|]. split; [reflexivity|].
  pose proof (submit_force_creates_new_job echo_provider cached_state QuizOp (Some doc42)
                None quiz_params cached_quiz_job _ _ _ Hwf Hin eq_refl eq_refl eq_refl)
    as (_ & Hid & _).
  exact Hid.
Defined.



(** Claim C3: translation takes its source text in the order explicit
    text, document summary, transcript, raw text; a present summary wins
    over raw text.  On the Process page, which sends the chosen text as
    the explicit text, the client picks the first non-empty of the
    displayed summary, the transcription and the document's text. *)
Theorem translate_source_precedence :
  (forall e doc,
     resolve Translate e doc =
       match first_usable [e; doc ≫= doc_summary; doc ≫= doc_transcript; doc ≫= doc_raw] with
       | Some s => inr (SrcText s)
       | None => inl NoSourceTextError
       end) /\
  (forall d s,
     doc_summary d = Some s -> usable (Some s) = true ->
     resolve Translate None (Some d) = inr (SrcText s)) /\
  (forall p d,
     Process.translate_source p d =
       first_truthy [Process.r_summary (Process.results p);
                     Process.r_transcription (Process.results p);
                     Process.pd_text_content d]) /\
  (forall p d f,
     Process.selected p = Some d ->
     fst (Process.run_action Process.ATranslate f p) =
       (fun s => Process.ReqTranslate (Process.pd_id d) s (Process.target_lang p)
                   (if truthy (Process.source_lang p) then Some (Process.source_lang p)
                    else None) f) <$>
       first_truthy [Process.r_summary (Process.results p);
                     Process.r_transcription (Process.results p);
                     Process.pd_text_content d]).
Proof.
  assert (Hsrc : forall p d, Process.translate_source p d =
       first_truthy [Process.r_summary (Process.results p);
                     Process.r_transcription (Process.results p);
                     Process.pd_text_content d]).
  { intros p d. unfold Process.translate_source.
    destruct (Process.results p) as [tr su tl]; simpl.
    destruct su as [a|]; destruct tr as [b|];
    destruct (Process.pd_text_content d) as [c|];
    unfold js_or, first_truthy; repeat case_match; congruence. }
  split; [|split; [|split]].
  - intros e doc. reflexivity.
  - intros d s Hs Hu. unfold resolve, candidates. simpl. rewrite Hs. simpl.
    simpl in Hu. by rewrite Hu.
  - exact Hsrc.
  - intros p d f Hsel. unfold Process.run_action. rewrite Hsel.
    assert (Hn : Process.nonnull_truthy (Process.translate_source p d) =
                 Process.translate_source p d).
    { rewrite Hsrc. generalize [Process.r_summary (Process.results p);
        Process.r_transcription (Process.results p); Process.pd_text_content d].
      induction l as [|[x|] l IH]; simpl; [done| |done].
      destruct (truthy x) eqn:Hx; simpl; [by rewrite Hx | done]. }
    rewrite Hn, <- Hsrc.
    destruct (Process.translate_source p d); reflexivity.
Qed.

Lemma translate_source_precedence_witness :
  resolve Translate None (Some doc42_summarized) = inr (SrcText "Mitochondria power cells.").
Proof.
  destruct translate_source_precedence as (_ & H & _).
  apply (H doc42_summarized "Mitochondria power cells."); reflexivity.
Defined.

End JobsFacts.

Module QuizFacts.
Import Str QuizValidation.
Local Open Scope list_scope.

Lemma filter_eq_seq (a s n : nat) :
  filter (fun i => i = a) (seq s n) = if bool_decide (s <= a < s + n) then [a] else [].
Proof.
  revert s. induction n as [|n IH]; intros s; simpl.
  - case_bool_decide; [lia|done].
  - rewrite filter_cons. case_decide as Hsa.
    + subst. rewrite IH. case_bool_decide; [lia|]. case_bool_decide; [done|lia].
    + rewrite IH. do 2 case_bool_decide; try done; lia.
Qed.

Lemma valid_question_spec q :
  valid_question q = true ->
  2 <= length (rq_options q) /\ rq_answer_index q < length (rq_options q) /\
  NoDup (map normalize (rq_options q)) /\ correct_indices q = [rq_answer_index q].
Proof.
  unfold valid_question. rewrite !andb_true_iff, !bool_decide_eq_true.
  intros [[H2 Hlt] Hnd]. repeat split; try done.
  unfold correct_indices. rewrite filter_eq_seq. case_bool_decide; [done|lia].
Qed.

Lemma validate_spec qs qs' :
  validate qs = Some qs' -> Forall (fun q => valid_question q = true) qs'.
Proof.
  unfold validate. destruct (mapM cleanup qs); [|done].
  destruct (forallb valid_question l) eqn:Hall; [|done].
  intros [= <-]. apply Forall_forall. intros q Hq.
  rewrite forallb_forall in Hall. apply Hall. by apply list_elem_of_In.
Qed.

(** Claim C5: every question of a quiz a quiz Job completes with has at
    least two options, an answer index inside [0, len(options)), exactly
    one option index shown as correct, and options pairwise distinct after
    normalization. *)
Theorem quiz_job_questions_valid (generate : nat -> option (list RawQuestion)) qs :
  quiz_job generate = QuizCompleted qs ->
  Forall (fun q =>
    2 <= length (rq_options q) /\ rq_answer_index q < length (rq_options q) /\
    NoDup (map normalize (rq_options q)) /\
    correct_indices q = [rq_answer_index q]) qs.
Proof.
  unfold quiz_job.
  assert (Hv : forall k, generate k ≫= validate = Some qs ->
            Forall (fun q => valid_question q = true) qs).
  { intros k. destruct (generate k); simpl; [apply validate_spec|done]. }
  intros H. eapply Forall_impl; [|intros q; apply valid_question_spec].
  destruct (generate 0 ≫= validate) eqn:H0.
  - injection H as <-. exact (Hv 0 H0).
  - destruct (generate 1 ≫= validate) eqn:H1; [|done].
    injection H as <-. exact (Hv 1 H1).
Qed.

Definition sample_generate (k : nat) : option (list RawQuestion) :=
  Some [mkRaw "Which organelle produces ATP?"
          ["Mitochondria"; "mitochondria "; "Nucleus"; "Ribosome"] 1].

Lemma quiz_job_questions_valid_witness :
  quiz_job sample_generate =
    QuizCompleted [mkRaw "Which organelle produces ATP?"
                     ["Mitochondria"; "Nucleus"; "Ribosome"] 0] /\
  correct_indices (mkRaw "Which organelle produces ATP?"
                     ["Mitochondria"; "Nucleus"; "Ribosome"] 0) = [0].
Proof.
  split; [vm_compute; reflexivity|].
  pose proof (quiz_job_questions_valid sample_generate _ ltac:(vm_compute; reflexivity))
    as Hall.
  inversion Hall as [|q l (_ & _ & _ & Hc) _]. exact Hc.
Defined.

End QuizFacts.

Module SingleFlightFacts.
Import Jobs SingleFlight.
Local Open Scope list_scope.

Lemma sf_step_nodup r e :
  NoDup (running r) -> NoDup (running (snd (sf_step r e))).
Proof.
  intros Hnd. destruct e as [c fp|fp]; simpl.
  - case_bool_decide as Hin; simpl; [done|].
    apply NoDup_app. split; [done|]. split.
    + intros x Hx Hx'. apply list_elem_of_singleton in Hx'. subst. done.
    + apply NoDup_singleton.
  - case_bool_decide; simpl; [|done]. by apply NoDup_filter.
Qed.

Lemma sf_run_nodup r es :
  NoDup (running r) -> NoDup (running (sf_run r es)).
Proof.
  revert r. induction es as [|e es IH]; intros r Hnd; simpl; [done|].
  apply IH. by apply sf_step_nodup.
Qed.

(** Claim C6: in every reachable registry a fingerprint has at most one
    execution in flight; a submission for a fingerprint in flight joins
    it without a new execution, and a submission for any other
    fingerprint starts at once whatever else is running. *)
Theorem single_flight_at_most_once (es : list sf_event) :
  let r := sf_run empty_registry es in
  NoDup (running r) /\
  (forall c fp, fp ∈ running r ->
     sf_step r (SfSubmit c fp) = (Joined, mkRegistry (running r) (waiters r ++ [(c, fp)]))) /\
  (forall c fp, fp ∉ running r ->
     sf_step r (SfSubmit c fp) = (Started, mkRegistry (running r ++ [fp]) (waiters r)) /\
     NoDup (running r ++ [fp])).
Proof.
  intros r. assert (Hnd : NoDup (running r)).
  { apply sf_run_nodup. constructor. }
  split; [done|split].
  - intros c fp Hin. simpl. by rewrite bool_decide_eq_true_2.
  - intros c fp Hout. simpl. rewrite bool_decide_eq_false_2 by done.
    split; [done|]. apply NoDup_app. split; [done|]. split.
    + intros x Hx Hx'. apply list_elem_of_singleton in Hx'. by subst.
    + apply NoDup_singleton.
Qed.

Definition fp_a : fingerprint := (Summarize, inl 42, [("mode", "concise")]).
Definition fp_b : fingerprint := (Translate, inl 42, [("target_lang", "es")]).

Lemma single_flight_at_most_once_witness :
  fst (sf_step (sf_run empty_registry [SfSubmit 1 fp_a]) (SfSubmit 2 fp_a)) = Joined /\
  fst (sf_step (sf_run empty_registry [SfSubmit 1 fp_a]) (SfSubmit 3 fp_b)) = Started.
Proof.
  destruct (single_flight_at_most_once [SfSubmit 1 fp_a]) as (_ & Hj & Hs).
  split.
  - rewrite (Hj 2 fp_a); [reflexivity|]. simpl. by left.
  - rewrite (proj1 (Hs 3 fp_b ltac:(simpl; rewrite list_elem_of_singleton; discriminate))).
    reflexivity.
Defined.

End SingleFlightFacts.

Module ChunkingFacts.
Import Str Chunking.
Local Open Scope list_scope.

Lemma fold_boundary_range (P : nat -> Prop) text l acc b :
  Forall P l -> (forall b', acc = Some b' -> P b') ->
  fold_left (fun acc b => if is_boundary text b then Some b else acc) l acc = Some b ->
  P b.
Proof.
  revert acc. induction l as [|x l IH]; intros acc Hl Hacc; simpl.
  - intros H. by apply Hacc.
  - inversion Hl as [|? ? Hx Hl']; subst. apply IH; [done|].
    destruct (is_boundary text x); [intros b' [= <-]; done | done].
Qed.

Lemma last_boundary_range text lo hi b :
  last_boundary text lo hi = Some b -> lo < b <= hi.
Proof.
  unfold last_boundary. apply (fold_boundary_range (fun b => lo < b <= hi)); [|done].
  apply Forall_forall. intros x Hx. apply elem_of_seq in Hx. lia.
Qed.

Lemma chunk_go_roundtrip text mu overlap fuel start ov :
  0 < mu -> overlap < mu -> ov < mu -> start + ov <= length text ->
  length text - start < fuel ->
  stitch_back (chunk_go fuel text mu overlap start ov) = skipn (start + ov) text.
Proof.
  revert start ov. induction fuel as [|fuel IH]; intros start ov Hmu Hov Hov' Hle Hfuel;
    [lia|]. simpl.
  destruct (Nat.leb (length text) start) eqn:Hend.
  - apply Nat.leb_le in Hend. simpl. rewrite skipn_all2; [done|lia].
  - apply Nat.leb_gt in Hend.
    set (cut := if Nat.leb (length text) (start + mu) then length text
                else match last_boundary text (start + ov) (start + mu) with
                     | Some b => b | None => start + mu end).
    assert (Hcut : start + ov <= cut <= length text /\ start < cut).
    { unfold cut. destruct (Nat.leb (length text) (start + mu)) eqn:Hl.
      - apply Nat.leb_le in Hl. lia.
      - apply Nat.leb_gt in Hl.
        destruct (last_boundary text (start + ov) (start + mu)) eqn:Hb.
        + apply last_boundary_range in Hb. lia.
        + lia. }
    set (next := if Nat.ltb start (cut - overlap) then cut - overlap else cut).
    assert (Hnext : start < next <= cut /\ cut - next < mu).
    { unfold next. destruct (Nat.ltb start (cut - overlap)) eqn:Hlt.
      - apply Nat.ltb_lt in Hlt. lia.
      - lia. }
    unfold stitch_back in *. simpl.
    rewrite (IH next (cut - next)) by lia.
    replace (next + (cut - next)) with cut by lia.
    set (l := skipn start text).
    assert (Hl : length l = length text - start) by (unfold l; apply length_skipn).
    replace (skipn cut text) with (skipn (cut - start) l)
      by (unfold l; rewrite skipn_skipn; f_equal; lia).
    replace (skipn (start + ov) text) with (skipn ov l)
      by (unfold l; rewrite skipn_skipn; f_equal; lia).
    rewrite <- (firstn_skipn (cut - start) l) at 3.
    rewrite skipn_app, length_firstn.
    replace (ov - Nat.min (cut - start) (length l)) with 0 by lia.
    done.
Qed.

Lemma chunk_go_sizes text mu overlap fuel start ov :
  Forall (fun sg => length sg.1 <= mu) (chunk_go fuel text mu overlap start ov).
Proof.
  revert start ov. induction fuel as [|fuel IH]; intros start ov; simpl; [constructor|].
  destruct (Nat.leb (length text) start); [constructor|].
  constructor; [|apply IH]. simpl. rewrite length_firstn.
  destruct (Nat.leb (length text) (start + mu)) eqn:Hl.
  - apply Nat.leb_le in Hl. lia.
  - destruct (last_boundary text (start + ov) (start + mu)) eqn:Hb.
    + apply last_boundary_range in Hb. lia.
    + lia.
Qed.

(** The mitochondria document of the spec's scenario, and a summary of it
    shorter than the input, as the spec's scenario requires. *)
Definition mito_text : string := "The mitochondria is the powerhouse of the cell.".
Definition mito_summary (s : string) : string := "Mitochondria power cells.".

(** Claim C7 as stated: chunking and stitching the per-segment outputs
    keeps every source sentence.  On the summarization path it does not:
    a one-sentence document summarised by a shorter text loses its only
    sentence. *)
Lemma chunk_stitch_keeps_sentences_cex :
  String.length (mito_summary mito_text) < String.length mito_text /\
  ~ (forall (summarize : string -> string) (mu overlap : nat) (text : string),
       Forall (fun s => contains (stitch_summaries summarize
                                    (chunk mu overlap (list_ascii_of_string text))) s = true)
              (sentences text)).
Proof.
  split; [vm_compute; lia|].
  intros H. specialize (H mito_summary 100 10 mito_text).
  vm_compute in H. inversion H as [|? ? Hc _]. discriminate.
Qed.

(** Claim C7 (amended): chunking loses nothing: every segment holds at
    most [max_unit] characters, and the segments put back together, each
    without the overlap it shares with its predecessor, give back the
    source text, hence all its sentences.  The stitched summary itself is
    made of the provider's per-segment summaries and need not contain the
    source sentences. *)
Theorem chunk_roundtrip (mu overlap : nat) (text : list ascii) :
  0 < mu -> overlap < mu ->
  stitch_back (chunk mu overlap text) = text /\
  Forall (fun sg => length sg.1 <= mu) (chunk mu overlap text).
Proof.
  intros Hmu Hov. split.
  - unfold chunk. rewrite chunk_go_roundtrip; try lia. done.
  - apply chunk_go_sizes.
Qed.

Lemma chunk_roundtrip_witness :
  let t := list_ascii_of_string "Cells divide. Mitochondria make ATP. Ribosomes build proteins." in
  length (chunk 20 5 t) = 6 /\ stitch_back (chunk 20 5 t) = t.
Proof.
  intros t. split; [vm_compute; reflexivity|].
  exact (proj1 (chunk_roundtrip 20 5 t ltac:(lia) ltac:(lia))).
Defined.

End ChunkingFacts.

Module CompositeFacts.
Import Str Jobs Composite Samples.
Local Open Scope list_scope.

Section Facts.
Variable provider : operation -> source -> params -> option string.
Variable ps : params.
Variable doc : option Document.
Variable explicit : option string.




End Facts.




End CompositeFacts.

Module StudyAidsFacts.
Import StudyAids.
Local Open Scope list_scope.

Lemma answers_of_lookup (clicks : list (Question * nat)) (q : Question) :
  (forall c, In c clicks -> q_id c.1 = q_id q -> c.1 = q) ->
  answers_of clicks !! q_id q = user_choice clicks q.
Proof.
  unfold answers_of, user_choice. intros Hid.
  assert (Hgen : forall (m : Answers) acc, m !! q_id q = acc ->
    fold_left (fun m c => handle_quiz_answer (q_id c.1) c.2 m) clicks m !! q_id q =
    fold_left (fun acc c => if bool_decide (c.1 = q) then Some c.2 else acc) clicks acc).
  { induction clicks as [|c clicks IH]; intros m acc Hm; simpl; [done|].
    apply IH.
    - intros c' Hc'. apply Hid. by right.
    - unfold handle_quiz_answer. case_bool_decide as Heq.
      + subst. apply lookup_insert_eq.
      + rewrite lookup_insert_ne; [done|].
        intros He. apply Heq, Hid; [by left|done]. }
  by apply Hgen.
Qed.

Lemma filter_empty_Forall {A} (P : A -> Prop) `{!forall x, Decision (P x)} (l : list A) :
  filter P l = [] <-> Forall (fun x => ~ P x) l.
Proof.
  induction l as [|x l IH]; simpl; [split; [constructor|done]|].
  rewrite filter_cons. case_decide as Hx.
  - split; [discriminate|]. intros Hf. inversion Hf. contradiction.
  - rewrite IH. split; [by constructor|]. by inversion 1.
Qed.

(** Claim C9: as long as each clicked question is the one its id names,
    [handleSubmitQuiz] submits exactly when every question of the quiz
    has a chosen option, and then sends one [{ordinal, selected_index}]
    pair per question, in the quiz's order, carrying the option the user
    chose last for that question. *)
Theorem submit_quiz_answers (qz : Quiz) (clicks : list (Question * nat)) :
  (forall c q, In c clicks -> In q (quiz_questions qz) -> q_id c.1 = q_id q -> c.1 = q) ->
  (Forall (fun q => user_choice clicks q <> None) (quiz_questions qz) ->
   handle_submit_quiz (Some qz) (answers_of clicks) =
     Some (quiz_id qz, map (fun q => (q_ordinal q, user_choice clicks q)) (quiz_questions qz))) /\
  (~ Forall (fun q => user_choice clicks q <> None) (quiz_questions qz) ->
   handle_submit_quiz (Some qz) (answers_of clicks) = None).
Proof.
  intros Hid. unfold handle_submit_quiz.
  assert (Hlk : forall q, In q (quiz_questions qz) ->
            answers_of clicks !! q_id q = user_choice clicks q).
  { intros q Hq. apply answers_of_lookup. intros c Hc. by apply Hid. }
  assert (Hfil : filter (fun q => answers_of clicks !! q_id q = None) (quiz_questions qz) =
                 filter (fun q => user_choice clicks q = None) (quiz_questions qz)).
  { revert Hlk. generalize (quiz_questions qz) as qs.
    induction qs as [|q qs IH]; intros Hlk; [done|].
    rewrite !filter_cons, (Hlk q) by (by left).
    rewrite IH by (intros q' Hq'; apply Hlk; by right). done. }
  assert (Hmap : map (answer_entry (answers_of clicks)) (quiz_questions qz) =
                 map (fun q => (q_ordinal q, user_choice clicks q)) (quiz_questions qz)).
  { apply map_ext_in. intros q Hq. unfold answer_entry. by rewrite Hlk. }
  rewrite Hfil, Hmap. split.
  - intros Hall. replace (filter _ _) with (@nil Question); [done|].
    symmetry. apply filter_empty_Forall. apply Forall_forall.
    intros q Hq Hnone. rewrite Forall_forall in Hall. by apply (Hall q).
  - intros Hnot.
    destruct (filter (fun q => user_choice clicks q = None) (quiz_questions qz)) eqn:Hf;
      [|done].
    exfalso. apply Hnot. apply filter_empty_Forall in Hf.
    rewrite Forall_forall in Hf |- *. intros q Hq Hn. by apply (Hf q).
Qed.

Definition quiz_q1 : Question := mkQuestion 11 1 "What produces ATP?" ["Mitochondria"; "Nucleus"] 0.
Definition quiz_q2 : Question := mkQuestion 12 2 "Where is DNA kept?" ["Ribosome"; "Nucleus"; "Membrane"] 1.
Definition sample_quiz : Quiz := mkQuiz 5 [quiz_q1; quiz_q2].

Lemma submit_quiz_answers_witness :
  handle_submit_quiz (Some sample_quiz)
    (answers_of [(quiz_q1, 1); (quiz_q2, 1); (quiz_q1, 0)]) =
  Some (5, [(1, Some 0); (2, Some 1)]).
Proof.
  assert (Hid : forall c q, In c [(quiz_q1, 1); (quiz_q2, 1); (quiz_q1, 0)] ->
            In q (quiz_questions sample_quiz) -> q_id c.1 = q_id q -> c.1 = q).
  { intros c q Hc Hq Heq. simpl in Hc, Hq.
    destruct Hc as [<-|[<-|[<-|[]]]]; destruct Hq as [<-|[<-|[]]];
      simpl in Heq; try reflexivity; discriminate. }
  rewrite (proj1 (submit_quiz_answers sample_quiz _ Hid)).
  - reflexivity.
  - repeat constructor; simpl; discriminate.
Defined.

End StudyAidsFacts.

Module ProcessFacts.
Import Str Process.
Local Open Scope list_scope.

(** Selecting a document with a different, non-zero id clears the
    summary, the translation, the last-run records and the processing
    flags; the transcription is cleared or, for audio/video, set to the
    new document's text. *)
Lemma select_resets (d : PDoc) (p : Page) :
  pd_id d <> 0 -> prev_doc_id p <> Some (pd_id d) ->
  let p' := select d p in
  r_summary (results p') = None /\ r_translation (results p') = None /\
  (r_transcription (results p') = None \/
   r_transcription (results p') = pd_text_content d) /\
  last_summary_mode_run p' = None /\ last_translate_run p' = None /\
  processing p' = no_flags /\ prev_doc_id p' = Some (pd_id d).
Proof.
  intros Hid Hprev. unfold select, reset_effect. simpl.
  assert (Ht : id_truthy (pd_id d) = true) by (unfold id_truthy; by apply negb_true_iff, Nat.eqb_neq).
  rewrite Ht, bool_decide_eq_false_2 by done. simpl.
  unfold av_effect. simpl.
  destruct (_ || _); [|repeat split; by left].
  destruct (pd_text_content d) as [t|] eqn:Hc; [|repeat split; by left].
  destruct (_ && _); simpl; repeat split; try by left. by right.
Qed.

Definition doc_photo : PDoc :=
  mkPDoc 1 (Some "Photosynthesis turns light into chemical energy.") "text/plain".
Definition doc_mitosis : PDoc :=
  mkPDoc 2 (Some "Mitosis splits one cell into two identical cells.") "text/plain".

(** The backend's answers: the summary of a text names the text. *)
Definition sample_server (r : request) : option string :=
  match r with
  | ReqSummarize _ t _ _ => Some ("Summary: " ++ t)%string
  | ReqTranslate _ t _ _ _ => Some ("Traduccion: " ++ t)%string
  | ReqTranscribe _ _ => None
  end.

(** Claim C10 at a failing input: summarise document 1, switch to
    document 2 while the call is in flight, then the response arrives.
    Document 2 is selected, its reset has run, and yet the page displays
    the summary of document 1 with its mode as the last summary run. *)
Lemma stale_summary_after_switch :
  let p := run_events sample_server init_page
             [ESelect doc_photo; ERun ASummary false; ESelect doc_mitosis; EResponse 0] in
  selected p = Some doc_mitosis /\
  prev_doc_id p = Some 2 /\
  r_summary (results p) =
    Some "Summary: Photosynthesis turns light into chemical energy." /\
  last_summary_mode_run p = Some "concise".
Proof. vm_compute. repeat split. Qed.

End ProcessFacts.

Module StringFacts.
Import JsString.
Local Open Scope list_scope.

Lemma list_ascii_of_string_app (s t : string) :
  list_ascii_of_string (s ++ t)%string = list_ascii_of_string s ++ list_ascii_of_string t.
Proof. induction s as [|c s IH]; simpl; [reflexivity|now rewrite IH]. Qed.

Lemma to_lower_upper_c (c : ascii) : to_lower_c (to_upper_c c) = to_lower_c c.
Proof. destruct c as [[] [] [] [] [] [] [] []]; reflexivity. Qed.

Lemma js_space_upper_c (c : ascii) : js_space (to_upper_c c) = js_space c.
Proof. destruct c as [[] [] [] [] [] [] [] []]; reflexivity. Qed.

Lemma js_trim_left_spaces (w l : list ascii) :
  forallb js_space w = true -> js_trim_left (w ++ l) = js_trim_left l.
Proof.
  induction w as [|c w IH]; simpl; [done|].
  intros [Hc Hw]%andb_prop. rewrite Hc. auto.
Qed.

Lemma js_trim_left_app_spaces (l w : list ascii) :
  forallb js_space w = true ->
  exists w', forallb js_space w' = true /\ js_trim_left (l ++ w) = js_trim_left l ++ w'.
Proof.
  intros Hw. induction l as [|c l IH]; simpl.
  - exists []. split; [done|].
    pose proof (js_trim_left_spaces w [] Hw) as E. rewrite app_nil_r in E.
    rewrite E. done.
  - destruct (js_space c); [exact IH|]. exists w. done.
Qed.

Lemma forallb_rev {A} (f : A -> bool) (l : list A) : forallb f (rev l) = forallb f l.
Proof.
  induction l as [|x l IH]; simpl; [done|].
  rewrite forallb_app, IH. simpl. destruct (f x), (forallb f l); done.
Qed.

Lemma js_trim_l_spaces (w l w' : list ascii) :
  forallb js_space w = true -> forallb js_space w' = true ->
  js_trim_l (w ++ l ++ w') = js_trim_l l.
Proof.
  intros Hw Hw'. unfold js_trim_l.
  rewrite (js_trim_left_spaces w _ Hw).
  destruct (js_trim_left_app_spaces l w' Hw') as (w'' & Hw'' & ->).
  rewrite rev_app_distr, js_trim_left_spaces; [done|].
  now rewrite forallb_rev.
Qed.

Lemma js_trim_left_map_upper (l : list ascii) :
  js_trim_left (map to_upper_c l) = map to_upper_c (js_trim_left l).
Proof.
  induction l as [|c l IH]; simpl; [done|].
  rewrite js_space_upper_c. destruct (js_space c); [exact IH|done].
Qed.

Lemma js_trim_l_map_upper (l : list ascii) :
  js_trim_l (map to_upper_c l) = map to_upper_c (js_trim_l l).
Proof.
  unfold js_trim_l.
  now rewrite js_trim_left_map_upper, <- map_rev, js_trim_left_map_upper, map_rev.
Qed.

Lemma js_trim_l_blank (l : list ascii) : forallb js_space l = true -> js_trim_l l = [].
Proof.
  intros H. unfold js_trim_l.
  pose proof (js_trim_left_spaces l [] H) as E. rewrite app_nil_r in E.
  rewrite E. done.
Qed.

End StringFacts.

Module LanguageFacts.
Import Str JsString LanguageUtils.

Ltac language_cases H :=
  simpl in H;
  repeat match type of H with
  | context [String.eqb ?k ?c] =>
      let E := fresh "E" in
      destruct (String.eqb k c) eqn:E;
      [apply String.eqb_eq in E; injection H as <-; rewrite E|]
  end; try discriminate.

(** A code listed in LANGUAGE_MAP, written in any case, is named by
    [getLanguageName] with its language name, and [getLanguageCode] maps that
    name back to the lower-cased code. *)
Lemma language_name_code_roundtrip (code name : string)
  (H : assoc (to_lower code) LANGUAGE_MAP = Some name) :
  getLanguageName code = JStr name /\ getLanguageCode name = to_lower code.
Proof.
  unfold getLanguageName.
  assert (Ht : truthy code = true) by (destruct code; [discriminate H|reflexivity]).
  rewrite Ht. cbn [negb]. unfold map_get. rewrite H.
  language_cases H; split; reflexivity.
Qed.

Lemma language_name_code_roundtrip_witness :
  assoc (to_lower "FR") LANGUAGE_MAP = Some "French" /\
  getLanguageName "FR" = JStr "French" /\ getLanguageCode "French" = to_lower "FR".
Proof.
  split; [reflexivity|]. apply language_name_code_roundtrip. reflexivity.
Defined.

(** A language name of LANGUAGE_MAP, written in any case, is turned by
    [getLanguageCode] into a code that [getLanguageName] maps back to the
    canonical name. *)
Lemma language_code_name_roundtrip (name canonical : string)
  (Hin : In canonical (map snd LANGUAGE_MAP))
  (Hcase : to_lower name = to_lower canonical) :
  getLanguageName (getLanguageCode name) = JStr canonical.
Proof.
  unfold getLanguageCode.
  assert (Ht : truthy name = true).
  { destruct name; [|reflexivity]. simpl in Hin.
    repeat destruct Hin as [<-|Hin]; try discriminate Hcase; done. }
  rewrite Ht. cbn [negb]. rewrite Hcase.
  simpl in Hin.
  repeat destruct Hin as [<-|Hin]; try contradiction; reflexivity.
Qed.

Lemma language_code_name_roundtrip_witness :
  In "Spanish" (map snd LANGUAGE_MAP) /\ to_lower "sPANISH" = to_lower "Spanish" /\
  getLanguageName (getLanguageCode "sPANISH") = JStr "Spanish".
Proof.
  split; [simpl; tauto|]. split; [reflexivity|].
  apply language_code_name_roundtrip; [simpl; tauto|reflexivity].
Defined.

End LanguageFacts.

Module NoteFormatFacts.
Import Str JsString NoteFormat.
Import ExtraSamples.
Local Open Scope list_scope.

Lemma split_nl_cons (l : list ascii) : exists w ws, split_nl l = w :: ws.
Proof.
  induction l as [|c l (w & ws & IH)]; simpl; [eauto|].
  destruct (Ascii.eqb c "010"%char); [eauto|]. rewrite IH. eauto.
Qed.

Lemma join_nl_cons (c : ascii) (w : list ascii) (ws : list (list ascii)) :
  join_nl ((c :: w) :: ws) = c :: join_nl (w :: ws).
Proof. destruct ws; reflexivity. Qed.

Lemma join_split_nl (l : list ascii) : join_nl (split_nl l) = l.
Proof.
  induction l as [|c l IH]; simpl; [done|].
  destruct (Ascii.eqb c "010"%char) eqn:Ec.
  - apply Ascii.eqb_eq in Ec as ->.
    destruct (split_nl_cons l) as (w & ws & Hs). rewrite Hs in IH |- *.
    change (join_nl ([] :: w :: ws)) with ([] ++ "010"%char :: join_nl (w :: ws)).
    now rewrite IH.
  - destruct (split_nl_cons l) as (w & ws & Hs). rewrite Hs in IH |- *.
    rewrite join_nl_cons. now rewrite IH.
Qed.

Lemma length_split_nl (l : list ascii) :
  length (split_nl l) = S (length (List.filter (fun c => Ascii.eqb c "010"%char) l)).
Proof.
  induction l as [|c l IH]; simpl; [done|].
  destruct (Ascii.eqb c "010"%char); simpl; [now rewrite IH|].
  destruct (split_nl_cons l) as (w & ws & Hs). rewrite Hs in IH |- *. exact IH.
Qed.

Lemma starts_with_skipn (pre l : list ascii) :
  starts_with_l pre l = true -> pre ++ skipn (length pre) l = l.
Proof.
  revert l. induction pre as [|p pre IH]; intros l H; simpl; [done|].
  destruct l as [|c l]; [discriminate|]. simpl.
  simpl in H. apply andb_prop in H as [Hpc H].
  apply Ascii.eqb_eq in Hpc as ->. f_equal. auto.
Qed.

Lemma replace_first_prefix (pre l : list ascii) :
  starts_with_l pre l = true -> replace_first_l pre l = skipn (length pre) l.
Proof. intros H. destruct l; simpl; rewrite H; reflexivity. Qed.

Lemma shown_format_line (l : list ascii) :
  numbered_prefix l = None -> (js_trim_l l = [] -> l = []) ->
  shown (format_line l) = l.
Proof.
  intros Hn Hb. unfold format_line.
  repeat match goal with
  | |- context [if starts_with_l ?pre l then _ else _] =>
      let E := fresh "E" in
      destruct (starts_with_l pre l) eqn:E;
      [simpl; rewrite replace_first_prefix by exact E;
       exact (starts_with_skipn _ _ E)|]
  end.
  rewrite Hn. destruct (js_trim_l l) eqn:Et; simpl; [|done].
  symmetry. auto.
Qed.

Lemma substring_0_long (s : string) (m : nat) :
  m <= String.length s -> String.length (substring 0 m s) = m.
Proof.
  revert m. induction s as [|c s IH]; intros [|m] H; simpl in *; try lia.
  f_equal. apply IH. lia.
Qed.

Lemma substring_0_short (s : string) (m : nat) :
  String.length s <= m -> substring 0 m s = s.
Proof.
  revert m. induction s as [|c s IH]; intros [|m] H; simpl in *; try lia; [done|done|].
  f_equal. apply IH. lia.
Qed.

Lemma substring_0_app (a b : string) :
  substring 0 (String.length a) (a ++ b)%string = a.
Proof. induction a as [|c a IH]; simpl; [now destruct b|now rewrite IH]. Qed.

Lemma length_append (a b : string) :
  String.length (a ++ b)%string = String.length a + String.length b.
Proof. induction a as [|c a IH]; simpl; [done|now rewrite IH]. Qed.

Lemma prefix_app (a b : string) : String.prefix a (a ++ b)%string = true.
Proof.
  induction a as [|c a IH]; simpl; [now destruct b|].
  destruct (ascii_dec c c); [exact IH|congruence].
Qed.

Lemma prefix_refl (s : string) : String.prefix s s = true.
Proof.
  induction s as [|c s IH]; simpl; [done|].
  destruct (ascii_dec c c); [exact IH|congruence].
Qed.

(** [truncateText] is never longer than [maxLength] plus the three dots,
    always starts with the first [maxLength] characters of the text, and
    truncating its result again changes nothing. *)
Lemma truncateText_props (text : string) (maxLength : nat) :
  String.length (truncateText text maxLength) <= maxLength + 3 /\
  String.prefix (substring 0 maxLength text) (truncateText text maxLength) = true /\
  truncateText (truncateText text maxLength) maxLength = truncateText text maxLength.
Proof.
  unfold truncateText.
  destruct (negb (truthy text) || Nat.leb (String.length text) maxLength) eqn:Hs.
  - pose proof Hs as Hs0. apply orb_true_iff in Hs as [Ht|Hl].
    + destruct text; [|discriminate].
      destruct maxLength; simpl; repeat split; try lia; reflexivity.
    + apply Nat.leb_le in Hl. rewrite substring_0_short by exact Hl.
      rewrite Hs0. repeat split; [lia|apply prefix_refl].
  - apply orb_false_iff in Hs as [Ht Hl]. apply Nat.leb_gt in Hl.
    pose proof (substring_0_long text maxLength ltac:(lia)) as Hsub.
    set (a := substring 0 maxLength text) in *.
    assert (Hlen : String.length (a ++ "...")%string = maxLength + 3)
      by (rewrite length_append; simpl; lia).
    repeat split.
    + lia.
    + apply prefix_app.
    + replace (negb (truthy (a ++ "...")) || Nat.leb (String.length (a ++ "...")) maxLength)
        with false.
      2:{ rewrite Hlen. destruct a; simpl; symmetry; apply Nat.leb_gt; lia. }
      rewrite <- Hsub at 1. rewrite substring_0_app. reflexivity.
Qed.

(** For non-empty content with no numbered lines and no blank lines holding
    spaces, [formatNoteContent] gives one entry per line of the input, and
    putting each entry's marker back before its content gives the content
    again. *)
Theorem formatNoteContent_roundtrip (content : string)
  (Hne : content <> "")
  (Hplain : Forall (fun l => numbered_prefix l = None /\ (js_trim_l l = [] -> l = []))
              (split_nl (list_ascii_of_string content))) :
  exists es, formatNoteContent content = FLines es /\
    length es = S (length (List.filter (fun c => Ascii.eqb c "010"%char)
                                       (list_ascii_of_string content))) /\
    join_nl (map shown es) = list_ascii_of_string content.
Proof.
  unfold formatNoteContent.
  assert (Ht : truthy content = true) by (destruct content; [congruence|reflexivity]).
  rewrite Ht. simpl negb. cbv iota.
  eexists. split; [reflexivity|]. split.
  - rewrite length_map. apply length_split_nl.
  - rewrite map_map.
    transitivity (join_nl (split_nl (list_ascii_of_string content)));
      [|apply join_split_nl].
    f_equal. induction Hplain as [|l ls [Hn Hb] _ IH]; simpl; [done|].
    rewrite shown_format_line by assumption. now rewrite IH.
Qed.

Lemma formatNoteContent_roundtrip_witness :
  exists es, formatNoteContent sample_note = FLines es /\
    length es = 3 /\ join_nl (map shown es) = list_ascii_of_string sample_note.
Proof.
  destruct (formatNoteContent_roundtrip sample_note) as (es & H1 & H2 & H3).
  - discriminate.
  - match goal with |- Forall _ ?l =>
      let l' := eval vm_compute in l in change l with l' end.
    repeat constructor; try reflexivity; intros H; vm_compute in H; discriminate H.
  - exists es. split; [exact H1|]. split; [exact H2|exact H3].
Defined.

End NoteFormatFacts.

Module DocSearchFacts.
Import Str JsString DocSearch StringFacts.
Import ExtraSamples.
Local Open Scope list_scope.

Lemma search_query_key (q w w' : string)
  (Hw : forallb js_space (list_ascii_of_string w) = true)
  (Hw' : forallb js_space (list_ascii_of_string w') = true) :
  to_lower (js_trim (w ++ to_upper q ++ w')%string) = to_lower (js_trim q).
Proof.
  unfold to_lower, js_trim, to_upper.
  rewrite !list_ascii_of_string_of_list_ascii, !list_ascii_of_string_app,
    list_ascii_of_string_of_list_ascii.
  rewrite (js_trim_l_spaces _ _ _ Hw Hw'), js_trim_l_map_upper, map_map.
  f_equal. apply map_ext. apply to_lower_upper_c.
Qed.

(** The document search ignores surrounding whitespace and the case of the
    query; a query of whitespace only keeps every document. *)
Theorem search_ignores_case_and_padding (q w w' : string) (docs : list SDoc)
  (Hw : forallb js_space (list_ascii_of_string w) = true)
  (Hw' : forallb js_space (list_ascii_of_string w') = true) :
  search_filter (w ++ to_upper q ++ w')%string docs = search_filter q docs /\
  (forallb js_space (list_ascii_of_string q) = true -> search_filter q docs = docs).
Proof.
  split.
  - unfold search_filter, search_keep. now rewrite (search_query_key q w w' Hw Hw').
  - intros Hq. unfold search_filter, search_keep, js_trim.
    rewrite (js_trim_l_blank _ Hq). simpl.
    induction docs as [|d docs IH]; simpl; [done|]. now rewrite IH.
Qed.

Lemma search_ignores_case_and_padding_witness :
  search_filter (" " ++ to_upper "biology" ++ "  ")%string sample_docs
    = search_filter "biology" sample_docs /\
  search_filter "biology" sample_docs =
    [mkSDoc (Some "Biology notes.pdf") None; mkSDoc (Some "") (Some "Cell biology.txt")] /\
  search_filter "   " sample_docs = sample_docs.
Proof.
  split; [exact (proj1 (search_ignores_case_and_padding "biology" " " "  " sample_docs
                          eq_refl eq_refl))|].
  split; [vm_compute; reflexivity|].
  exact (proj2 (search_ignores_case_and_padding "   " "" "" sample_docs eq_refl eq_refl)
           eq_refl).
Defined.

End DocSearchFacts.

Module ProcessUIFacts.
Import Str Process ProcessUI.
Import ExtraSamples.

Lemma opt_truthy_js_or (a b : option string) :
  opt_truthy (js_or a b) = opt_truthy a || opt_truthy b.
Proof. destruct a as [s|]; simpl; [destruct (truthy s) eqn:E; simpl; rewrite ?E|]; reflexivity. Qed.

Lemma opt_truthy_nonnull (o : option string) :
  opt_truthy o = true -> exists s, nonnull_truthy o = Some s /\ truthy s = true.
Proof.
  destruct o as [s|]; simpl; [|discriminate]. intros H. rewrite H. eauto.
Qed.

(** When the summary button is enabled, running the summary sends a summarize
    request for the selected document with a non-empty text and the chosen
    mode, and marks the summary as processing. *)
Lemma run_summary_enabled_sends (p : Page) (d : PDoc)
  (Hsel : selected p = Some d)
  (Hen : summary_disabled p d = false) :
  exists s, truthy s = true /\
    fst (run_action ASummary false p) = Some (ReqSummarize (pd_id d) s (summary_mode p) false) /\
    f_summary (processing (snd (run_action ASummary false p))) = true.
Proof.
  unfold summary_disabled in Hen. apply orb_false_iff in Hen as [Hen _].
  apply orb_false_iff in Hen as [_ Htx]. apply negb_false_iff in Htx.
  assert (Hs : exists s, nonnull_truthy (summary_source p d) = Some s /\ truthy s = true).
  { apply opt_truthy_nonnull. unfold summary_source.
    rewrite !opt_truthy_js_or in *. simpl. rewrite orb_false_r, orb_comm. exact Htx. }
  destruct Hs as (s & Hs & Hts). exists s.
  unfold run_action. rewrite Hsel, Hs. simpl. auto.
Qed.

(** When the translate button is enabled, running the translation sends a
    translate request for the selected document with a non-empty text, the
    target language and the source language if one is set, and marks the
    translation as processing. *)
Lemma run_translate_enabled_sends (p : Page) (d : PDoc)
  (Hsel : selected p = Some d)
  (Hen : translate_disabled p d = false) :
  exists s, truthy s = true /\
    fst (run_action ATranslate false p) =
      Some (ReqTranslate (pd_id d) s (target_lang p)
              (if truthy (source_lang p) then Some (source_lang p) else None) false) /\
    f_translate (processing (snd (run_action ATranslate false p))) = true.
Proof.
  unfold translate_disabled in Hen. apply orb_false_iff in Hen as [Hen _].
  apply orb_false_iff in Hen as [_ Htx]. apply negb_false_iff in Htx.
  assert (Hs : exists s, nonnull_truthy (translate_source p d) = Some s /\ truthy s = true).
  { apply opt_truthy_nonnull. unfold translate_source.
    rewrite !opt_truthy_js_or in *. simpl. rewrite orb_false_r. exact Htx. }
  destruct Hs as (s & Hs & Hts). exists s.
  unfold run_action. rewrite Hsel, Hs. simpl. auto.
Qed.

(** Once a summary in the chosen mode has completed with a non-empty text, the
    summary button is disabled. *)
Lemma summary_completed_disables (c : Pending) (t : string) (p : Page) (d : PDoc)
  (Ha : p_action c = ASummary) (Ht : truthy t = true)
  (Hmode : p_mode c = summary_mode p) :
  summary_disabled (complete c (Some t) p) d = true.
Proof.
  unfold summary_disabled, complete. rewrite Ha. simpl. rewrite Ht. simpl.
  rewrite Hmode. rewrite bool_decide_eq_true_2 by reflexivity.
  rewrite ?Ht. simpl. rewrite ?orb_true_r. reflexivity.
Qed.

(** Once a translation for the chosen languages has completed with a non-empty
    text, the translate button is disabled. *)
Lemma translate_completed_disables (c : Pending) (t : string) (p : Page) (d : PDoc)
  (Ha : p_action c = ATranslate) (Ht : truthy t = true)
  (Htarget : p_target c = target_lang p) (Hsrc : p_source_lang c = source_lang p) :
  translate_disabled (complete c (Some t) p) d = true.
Proof.
  unfold translate_disabled, complete. rewrite Ha. simpl. rewrite Ht. simpl.
  rewrite Htarget, Hsrc, !String.eqb_refl. rewrite ?Ht. simpl.
  rewrite ?orb_true_r. reflexivity.
Qed.

(** Starting one action leaves the processing flags of the other actions and
    all results unchanged, and completing a response of one action leaves the
    flags and results of the other actions unchanged. *)
Lemma actions_isolated (a : action) (force : bool) (c : Pending) (out : option string)
  (p : Page) (b : action) :
  (b <> a -> flag_of b (processing (snd (run_action a force p))) = flag_of b (processing p) /\
             results (snd (run_action a force p)) = results p) /\
  (b <> p_action c -> flag_of b (processing (complete c out p)) = flag_of b (processing p) /\
                      result_of b (results (complete c out p)) = result_of b (results p)).
Proof.
  split; intros Hb.
  - unfold run_action.
    destruct (selected p) as [d|]; [|done].
    destruct a, b; try congruence; simpl;
      repeat (case_match; simpl); split; reflexivity.
  - unfold complete. destruct (p_action c) eqn:Ea, b; try congruence; simpl;
      (split; [reflexivity|]); destruct out as [t|]; simpl;
      try (destruct (truthy t)); reflexivity.
Qed.

(** Selecting a document with id 0, or the document the page already shows,
    keeps the summary and translation, the last runs and the processing
    flags. *)
Lemma reselect_keeps_results (d : PDoc) (p : Page)
  (Hsame : pd_id d = 0 \/ prev_doc_id p = Some (pd_id d)) :
  let p' := select d p in
  r_summary (results p') = r_summary (results p) /\
  r_translation (results p') = r_translation (results p) /\
  last_summary_mode_run p' = last_summary_mode_run p /\
  last_translate_run p' = last_translate_run p /\
  processing p' = processing p /\ prev_doc_id p' = prev_doc_id p.
Proof.
  unfold select, reset_effect. simpl.
  replace (id_truthy (pd_id d) && negb (bool_decide (prev_doc_id p = Some (pd_id d))))
    with false.
  2:{ destruct Hsame as [H0|Hp].
      - rewrite H0. reflexivity.
      - rewrite bool_decide_eq_true_2 by exact Hp. simpl. now rewrite andb_false_r. }
  unfold av_effect. simpl.
  repeat (case_match; simpl); repeat split; reflexivity.
Qed.

(** The type badge reads audio or video exactly for the mime types that can be
    transcribed. *)
Lemma typeBadge_media (mime : string) :
  (typeBadge mime = "audio" \/ typeBadge mime = "video") <-> transcribable_mime mime = true.
Proof.
  unfold typeBadge, transcribable_mime.
  destruct (truthy mime); simpl; [|split; [intros [H|H]; discriminate|discriminate]].
  destruct (starts_with "audio/" mime); simpl; [tauto|].
  destruct (starts_with "video/" mime); simpl; [tauto|].
  split; [|discriminate].
  repeat case_match; intros [Hbad|Hbad]; discriminate Hbad.
Qed.

Lemma run_summary_enabled_sends_witness :
  selected page_notes = Some notes_doc /\ summary_disabled page_notes notes_doc = false /\
  exists s, truthy s = true /\
    fst (run_action ASummary false page_notes) =
      Some (ReqSummarize (pd_id notes_doc) s (summary_mode page_notes) false) /\
    f_summary (processing (snd (run_action ASummary false page_notes))) = true.
Proof.
  split; [reflexivity|]. split; [reflexivity|].
  exact (run_summary_enabled_sends page_notes notes_doc eq_refl eq_refl).
Defined.

Lemma run_translate_enabled_sends_witness :
  selected page_summarized = Some notes_doc /\
  translate_disabled page_summarized notes_doc = false /\
  exists s, truthy s = true /\
    fst (run_action ATranslate false page_summarized) =
      Some (ReqTranslate (pd_id notes_doc) s (target_lang page_summarized)
              (if truthy (source_lang page_summarized)
               then Some (source_lang page_summarized) else None) false) /\
    f_translate (processing (snd (run_action ATranslate false page_summarized))) = true.
Proof.
  split; [reflexivity|]. split; [reflexivity|].
  exact (run_translate_enabled_sends page_summarized notes_doc eq_refl eq_refl).
Defined.

Lemma summary_completed_disables_witness :
  summary_disabled page_summarizing notes_doc = true /\
  summary_disabled (complete pending_summary (Some "Mitosis splits cells.") page_summarizing)
    notes_doc = true.
Proof.
  split; [reflexivity|].
  exact (summary_completed_disables pending_summary "Mitosis splits cells."
           page_summarizing notes_doc eq_refl eq_refl eq_refl).
Defined.

Lemma translate_completed_disables_witness :
  translate_disabled (complete pending_translate (Some "Les cellules se divisent.")
                        page_summarized) notes_doc = true.
Proof.
  exact (translate_completed_disables pending_translate "Les cellules se divisent."
           page_summarized notes_doc eq_refl eq_refl eq_refl eq_refl).
Defined.

Lemma actions_isolated_witness :
  (flag_of ATranscribe (processing (snd (run_action ATranslate false page_summarizing)))
     = flag_of ATranscribe (processing page_summarizing) /\
   results (snd (run_action ATranslate false page_summarizing)) = results page_summarizing) /\
  (flag_of ATranscribe (processing (complete pending_summary (Some "Mitosis splits cells.")
                                      page_summarizing))
     = flag_of ATranscribe (processing page_summarizing) /\
   result_of ATranscribe (results (complete pending_summary (Some "Mitosis splits cells.")
                                     page_summarizing))
     = result_of ATranscribe (results page_summarizing)).
Proof.
  destruct (actions_isolated ATranslate false pending_summary (Some "Mitosis splits cells.")
              page_summarizing ATranscribe) as [H1 H2].
  split; [apply H1; discriminate|apply H2; discriminate].
Defined.

Lemma reselect_keeps_results_witness :
  r_summary (results (select notes_doc page_summarized)) = Some "Mitosis splits cells." /\
  (let p' := select notes_doc page_summarized in
   r_summary (results p') = r_summary (results page_summarized) /\
   r_translation (results p') = r_translation (results page_summarized) /\
   last_summary_mode_run p' = last_summary_mode_run page_summarized /\
   last_translate_run p' = last_translate_run page_summarized /\
   processing p' = processing page_summarized /\
   prev_doc_id p' = prev_doc_id page_summarized).
Proof.
  split; [reflexivity|].
  apply reselect_keeps_results. right. reflexivity.
Defined.

End ProcessUIFacts.

Module QuizGenFacts.
Import StudyAids QuizGen.
Import ExtraSamples.

(** When generation returns a quiz id, the fetched quiz is stored under its
    document, the quizzes of other documents stay, and the answers, submission
    and score are reset. *)
Lemma generate_finish_stores (docId : nat) (gen : GenResponse) (fetch : nat -> FullQuiz)
  (st : SAState) (qid : nat) (Hid : quiz_id_of gen = Some qid) :
  let st' := generate_finish docId gen fetch st in
  sa_quizzes st' !! docId = Some (normalize (fetch qid)) /\
  (forall other, other <> docId -> sa_quizzes st' !! other = sa_quizzes st !! other) /\
  sa_answers st' = ∅ /\ sa_submitted st' = false /\ sa_score st' = None /\
  sa_loading st' !! docId = Some false /\ sa_selected st' = sa_selected st.
Proof.
  unfold generate_finish. rewrite Hid. simpl.
  split; [apply lookup_insert_eq|].
  split; [intros o Ho; now apply lookup_insert_ne|].
  repeat split; try reflexivity. apply lookup_insert_eq.
Qed.

(** When generation returns no usable quiz id, nothing is fetched and only the
    loading flag of the document is cleared. *)
Lemma generate_without_id (docId : nat) (gen : GenResponse) (fetch fetch' : nat -> FullQuiz)
  (st : SAState)
  (Hnone : Forall (fun o => o = None \/ o = Some 0)
             [gen_quiz_dot_id gen; gen_quiz_id gen; gen_id gen]) :
  let st' := generate_finish docId gen fetch st in
  st' = generate_finish docId gen fetch' st /\
  sa_quizzes st' = sa_quizzes st /\ sa_answers st' = sa_answers st /\
  sa_submitted st' = sa_submitted st /\ sa_score st' = sa_score st /\
  sa_loading st' !! docId = Some false.
Proof.
  assert (Hid : quiz_id_of gen = None).
  { rewrite !Forall_cons in Hnone. destruct Hnone as (Ha & Hb & Hc & _).
    unfold quiz_id_of, num_or.
    destruct Ha as [-> | ->], Hb as [-> | ->], Hc as [-> | ->]; reflexivity. }
  unfold generate_finish. rewrite Hid. simpl.
  repeat split; try reflexivity. apply lookup_insert_eq.
Qed.

(** An answer left over for a question that is not in the shown quiz keeps the
    submit button disabled even when every shown question is answered,
    although submitting would be accepted. *)
Lemma stale_answers_block_submit (st : SAState) (docId : nat) (qz : Quiz) (k : nat)
  (Hnodup : NoDup (map q_id (quiz_questions qz)))
  (Hall : forall q, q ∈ quiz_questions qz -> is_Some (sa_answers st !! q_id q))
  (Hk : k ∉ map q_id (quiz_questions qz))
  (Hstale : is_Some (sa_answers st !! k)) :
  submit_disabled st docId qz = true /\
  handle_submit_quiz (Some qz) (sa_answers st) <> None.
Proof.
  split.
  - unfold submit_disabled.
    assert (Hsub : (list_to_set (k :: map q_id (quiz_questions qz)) : gset nat) ⊆
                   dom (sa_answers st)).
    { intros x Hx. apply elem_of_list_to_set in Hx.
      apply elem_of_dom. apply elem_of_cons in Hx as [->|Hx]; [exact Hstale|].
      apply list_elem_of_fmap in Hx as (q & -> & Hq). auto. }
    apply subseteq_size in Hsub.
    rewrite size_list_to_set in Hsub by (apply NoDup_cons; auto).
    rewrite size_dom in Hsub. simpl in Hsub. rewrite length_map in Hsub.
    destruct (Nat.eqb (size (sa_answers st)) (length (quiz_questions qz))) eqn:E.
    + apply Nat.eqb_eq in E. lia.
    + rewrite orb_true_r. reflexivity.
  - unfold handle_submit_quiz.
    assert (Hf : filter (fun q => sa_answers st !! q_id q = None) (quiz_questions qz) = []).
    { induction (quiz_questions qz) as [|q qs IH]; [reflexivity|].
      rewrite filter_cons. destruct (decide _) as [Hq|Hq].
      - exfalso. destruct (Hall q) as [v Hv]; [left|congruence].
      - apply IH; [now inversion Hnodup|intros q' Hq'; apply Hall; right; exact Hq'|].
        intros Hin. apply Hk. right. exact Hin. }
    rewrite Hf. simpl. discriminate.
Qed.

Lemma generate_finish_stores_witness :
  quiz_id_of gen_with_id = Some 12 /\
  (let st' := generate_finish 4 gen_with_id sample_fetch sa_busy in
   sa_quizzes st' !! 4 = Some (normalize (sample_fetch 12)) /\
   (forall other, other <> 4 -> sa_quizzes st' !! other = sa_quizzes sa_busy !! other) /\
   sa_answers st' = ∅ /\ sa_submitted st' = false /\ sa_score st' = None /\
   sa_loading st' !! 4 = Some false /\ sa_selected st' = sa_selected sa_busy).
Proof.
  split; [reflexivity|].
  exact (generate_finish_stores 4 gen_with_id sample_fetch sa_busy 12 eq_refl).
Defined.

Lemma generate_without_id_witness :
  let st' := generate_finish 4 gen_without_id sample_fetch sa_busy in
  st' = generate_finish 4 gen_without_id (fun _ => mkFullQuiz 0 None) sa_busy /\
  sa_quizzes st' = sa_quizzes sa_busy /\ sa_answers st' = sa_answers sa_busy /\
  sa_submitted st' = sa_submitted sa_busy /\ sa_score st' = sa_score sa_busy /\
  sa_loading st' !! 4 = Some false.
Proof.
  apply generate_without_id.
  repeat constructor; right; reflexivity.
Defined.

Lemma stale_answers_block_submit_witness :
  submit_disabled sa_stale 4 (normalize (sample_fetch 12)) = true /\
  handle_submit_quiz (Some (normalize (sample_fetch 12))) (sa_answers sa_stale) <> None.
Proof.
  apply (stale_answers_block_submit sa_stale 4 (normalize (sample_fetch 12)) 9).
  - simpl. apply NoDup_singleton.
  - intros q Hq. simpl in Hq. apply list_elem_of_singleton in Hq as ->.
    eexists. reflexivity.
  - simpl. intros Hin. apply list_elem_of_singleton in Hin. discriminate.
  - eexists. reflexivity.
Defined.

End QuizGenFacts.

Module PromiseCacheFacts.
Import PromiseCache.
Local Open Scope list_scope.

Section Facts.
Context {K : Type} `{Countable K}.

Lemma cached_get_spec (k : K) (st : CacheState) :
  cache_inv st ->
  let '(p, st1) := cached_get k st in
  cache_inv st1 /\ api_calls st1 !! p = Some k /\
  (exists ext, api_calls st1 = api_calls st ++ ext) /\
  (forall x, x ∈ api_calls st1 <-> x ∈ api_calls st \/ x = k).
Proof.
  intros [Hnd Hiff]. unfold cached_get.
  destruct (cache st !! k) as [p|] eqn:Ek.
  - assert (Hp : api_calls st !! p = Some k) by (apply Hiff; exact Ek).
    split; [split; assumption|]. split; [exact Hp|].
    split; [exists []; now rewrite app_nil_r|].
    intros x. split; [tauto|]. intros [Hx| ->]; [exact Hx|].
    eapply list_elem_of_lookup_2. exact Hp.
  - assert (Hnin : k ∉ api_calls st).
    { intros Hin. apply list_elem_of_lookup in Hin as (i & Hi).
      apply Hiff in Hi. congruence. }
    cbn [cache api_calls fst snd]. split; [split|].
    + apply NoDup_app. split; [exact Hnd|]. split; [|apply NoDup_singleton].
      intros x Hx Hx'. apply list_elem_of_singleton in Hx' as ->. contradiction.
    + intros x p'. cbn [cache api_calls]. rewrite lookup_app.
      destruct (decide (x = k)) as [->|Hne].
      * rewrite lookup_insert_eq. split.
        -- intros Heq. injection Heq as <-.
           rewrite lookup_ge_None_2 by lia. rewrite Nat.sub_diag. reflexivity.
        -- destruct (api_calls st !! p') as [y|] eqn:Ey.
           ++ intros Heq. injection Heq as ->. exfalso. apply Hnin.
              eapply list_elem_of_lookup_2. exact Ey.
           ++ apply lookup_ge_None in Ey.
              destruct (p' - length (api_calls st)) as [|j] eqn:Ej; simpl;
                [intros _; f_equal; lia|].
              rewrite lookup_nil. discriminate.
      * rewrite lookup_insert_ne by congruence. rewrite Hiff.
        destruct (api_calls st !! p') as [y|] eqn:Ey; [reflexivity|].
        split; [discriminate|].
        destruct (p' - length (api_calls st)) as [|j]; simpl;
          [intros Heq; injection Heq as ->; contradiction|].
        rewrite lookup_nil. discriminate.
    + cbn [cache api_calls]. split.
      * rewrite lookup_app_r by lia. rewrite Nat.sub_diag. reflexivity.
      * split; [eexists; reflexivity|].
        intros x. rewrite elem_of_app, list_elem_of_singleton. tauto.
Qed.

Lemma run_loads_spec (ks : list K) (st : CacheState) :
  cache_inv st ->
  let '(ps, st') := run_loads ks st in
  cache_inv st' /\
  (exists ext, api_calls st' = api_calls st ++ ext) /\
  (forall x, x ∈ api_calls st' <-> x ∈ api_calls st \/ x ∈ ks) /\
  length ps = length ks /\
  (forall j k p, ks !! j = Some k -> ps !! j = Some p -> api_calls st' !! p = Some k).
Proof.
  revert st. induction ks as [|k ks IH]; intros st Hinv; simpl.
  - split; [exact Hinv|]. split; [exists []; now rewrite app_nil_r|].
    split; [intros x; rewrite elem_of_nil; tauto|].
    split; [reflexivity|]. intros j k p Hj. rewrite lookup_nil in Hj. discriminate.
  - pose proof (cached_get_spec k st Hinv) as Hg.
    destruct (cached_get k st) as [p st1].
    destruct Hg as (Hinv1 & Hp & (ext1 & Hext1) & Hmem1).
    specialize (IH st1 Hinv1).
    destruct (run_loads ks st1) as [ps st2].
    destruct IH as (Hinv2 & (ext2 & Hext2) & Hmem2 & Hlen & Hlook).
    split; [exact Hinv2|].
    split; [exists (ext1 ++ ext2); rewrite Hext2, Hext1; symmetry; apply app_assoc|].
    split.
    { intros x. rewrite Hmem2, Hmem1, elem_of_cons. tauto. }
    split; [simpl; now rewrite Hlen|].
    intros [|j] k' p' Hj Hp'; simpl in Hj, Hp'.
    + injection Hj as <-. injection Hp' as <-.
      rewrite Hext2. apply lookup_app_l_Some. exact Hp.
    + eauto.
Qed.

Lemma run_loads_order (ks : list K) (st : CacheState) :
  cache_inv st ->
  api_calls (snd (run_loads ks st)) = api_calls st ++ first_uses (api_calls st) ks.
Proof.
  revert st. induction ks as [|k ks IH]; intros st Hinv; simpl.
  - now rewrite app_nil_r.
  - pose proof (cached_get_spec k st Hinv) as Hg.
    destruct Hinv as [Hnd Hiff].
    unfold cached_get in *.
    destruct (cache st !! k) as [p|] eqn:Ek.
    + assert (Hin : k ∈ api_calls st).
      { eapply list_elem_of_lookup_2. apply Hiff. exact Ek. }
      rewrite bool_decide_eq_true_2 by exact Hin.
      pose proof (IH st (conj Hnd Hiff)) as E.
      destruct (run_loads ks st) as [ps st2]. exact E.
    + assert (Hnin : k ∉ api_calls st).
      { intros Hin. apply list_elem_of_lookup in Hin as (i & Hi).
        apply Hiff in Hi. congruence. }
      rewrite bool_decide_eq_false_2 by exact Hnin.
      destruct Hg as (Hinv1 & _).
      pose proof (IH _ Hinv1) as E.
      destruct (run_loads ks _) as [ps st2]. simpl in *. rewrite E.
      rewrite <- app_assoc. reflexivity.
Qed.

(** Through the promise cache each key is loaded by one API call only, the
    calls are made in the order of first use of their keys, and every load
    gets the result of the call for its key. *)
Theorem single_flight_loads (ks : list K) :
  let '(ps, st) := run_loads ks empty_cache in
  api_calls st = first_uses [] ks /\
  NoDup (api_calls st) /\
  (forall k, k ∈ api_calls st <-> k ∈ ks) /\
  length ps = length ks /\
  (forall j k p, ks !! j = Some k -> ps !! j = Some p -> api_calls st !! p = Some k).
Proof.
  assert (Hinv : cache_inv (@empty_cache K _ _)).
  { split; [constructor|]. intros k p. simpl.
    rewrite lookup_empty, lookup_nil. split; discriminate. }
  pose proof (run_loads_spec ks empty_cache Hinv) as Hs.
  pose proof (run_loads_order ks empty_cache Hinv) as Ho.
  destruct (run_loads ks empty_cache) as [ps st].
  destruct Hs as ((Hnd & _) & _ & Hmem & Hlen & Hlook).
  split; [exact Ho|]. split; [exact Hnd|]. split; [|split; assumption].
  intros k. rewrite Hmem. simpl. rewrite elem_of_nil. tauto.
Qed.

End Facts.

Lemma single_flight_loads_witness :
  run_loads ["7"; "7"; "8"; "7"] empty_cache =
    ([0; 0; 1; 0], mkCache (<[ "8" := 1 ]> (<[ "7" := 0 ]> ∅)) ["7"; "8"]) /\
  (let '(ps, st) := run_loads ["7"; "7"; "8"; "7"] empty_cache in
   api_calls st = first_uses [] ["7"; "7"; "8"; "7"] /\
   NoDup (api_calls st) /\
   (forall k, k ∈ api_calls st <-> k ∈ ["7"; "7"; "8"; "7"]) /\
   length ps = 4 /\
   (forall j k p, ["7"; "7"; "8"; "7"] !! j = Some k -> ps !! j = Some p ->
                  api_calls st !! p = Some k)).
Proof.
  split; [reflexivity|].
  exact (single_flight_loads ["7"; "7"; "8"; "7"]).
Defined.

End PromiseCacheFacts.

Module WordCountFacts.
Import JsString WordCount StringFacts.
Local Open Scope list_scope.

Lemma split_ws_go_cons (l : list ascii) (b : bool) :
  exists w ws, split_ws_go l b = w :: ws.
Proof.
  revert b. induction l as [|c l IH]; intros b; simpl; [eauto|].
  destruct (js_space c); [destruct b; eauto|].
  destruct (IH false) as (w & ws & ->). eauto.
Qed.

Lemma split_ws_go_head (l : list ascii) :
  exists w ws, split_ws_go l false = w :: ws /\
    Nat.ltb 0 (length w) = Nat.eqb (starts_word l) 1.
Proof.
  destruct l as [|c l]; simpl; [eexists _, _; split; reflexivity|].
  destruct (js_space c) eqn:Ec; [eexists _, _; split; reflexivity|].
  destruct (split_ws_go_cons l false) as (w & ws & ->).
  eexists _, _. split; reflexivity.
Qed.

Lemma runs_true_false (l : list ascii) : runs l true = runs l false + starts_word l.
Proof.
  destruct l as [|c l]; simpl; [reflexivity|].
  destruct (js_space c); simpl; lia.
Qed.

Lemma count_split_ws_go (l : list ascii) (b : bool) :
  length (List.filter (fun w => Nat.ltb 0 (length w)) (split_ws_go l b)) = runs l true.
Proof.
  revert b. induction l as [|c l IH]; intros b; simpl; [reflexivity|].
  destruct (js_space c) eqn:Ec.
  - destruct b; simpl; apply IH.
  - destruct (split_ws_go_head l) as (w & ws & Hs & Hw).
    specialize (IH false). rewrite Hs in IH |- *. simpl in IH |- *.
    rewrite runs_true_false in IH.
    assert (Hsw : starts_word l <= 1)
      by (destruct l as [|c' l]; simpl; [lia|destruct (js_space c'); lia]).
    destruct (Nat.ltb 0 (length w)) eqn:Ew; simpl in IH;
      destruct (starts_word l) as [|[|n]]; simpl in Hw; try discriminate; lia.
Qed.

Lemma runs_lead_spaces (w l : list ascii) :
  forallb js_space w = true -> runs (w ++ l) true = runs l true.
Proof.
  induction w as [|c w IH]; simpl; [reflexivity|].
  intros [Hc Hw]%andb_prop. rewrite Hc. auto.
Qed.

Lemma runs_trail_spaces (l w : list ascii) (b : bool) :
  forallb js_space w = true -> runs (l ++ w) b = runs l b.
Proof.
  intros Hw. revert b. induction l as [|c l IH]; intros b; simpl.
  - revert b. induction w as [|c w IHw]; intros b; simpl in *; [reflexivity|].
    apply andb_prop in Hw as [Hc Hw]. rewrite Hc. auto.
  - destruct (js_space c); rewrite ?IH; reflexivity.
Qed.

Lemma js_trim_left_split (l : list ascii) :
  exists sp, forallb js_space sp = true /\ l = sp ++ js_trim_left l.
Proof.
  induction l as [|c l (sp & Hsp & Hl)]; simpl; [exists []; done|].
  destruct (js_space c) eqn:Ec.
  - exists (c :: sp). simpl. rewrite Ec, Hsp. split; [reflexivity|]. now rewrite <- Hl.
  - exists []. done.
Qed.

Lemma runs_js_trim_l (l : list ascii) : runs (js_trim_l l) true = runs l true.
Proof.
  unfold js_trim_l.
  destruct (js_trim_left_split l) as (sp & Hsp & Hl).
  set (m := js_trim_left l) in *.
  destruct (js_trim_left_split (rev m)) as (sp' & Hsp' & Hm).
  assert (Hm' : m = rev (js_trim_left (rev m)) ++ rev sp').
  { rewrite <- rev_app_distr, <- Hm. symmetry. apply rev_involutive. }
  rewrite Hl. rewrite runs_lead_spaces by exact Hsp.
  rewrite Hm' at 2. rewrite runs_trail_spaces; [reflexivity|].
  now rewrite forallb_rev.
Qed.

(** The word count is the number of maximal runs of non-whitespace characters
    in the text. *)
Theorem wordCount_runs (text : string) :
  wordCount text = runs (list_ascii_of_string text) true.
Proof.
  unfold wordCount, split_ws. rewrite count_split_ws_go. apply runs_js_trim_l.
Qed.

End WordCountFacts.

Module ApiFacts.
Import Str Process ApiService.
Import ExtraSamples.

Lemma nonnull_truthy_some (o : option string) (s : string) :
  nonnull_truthy o = Some s -> truthy s = true.
Proof.
  destruct o as [s'|]; simpl; [|discriminate].
  destruct (truthy s') eqn:E; [|discriminate]. intros H. injection H as <-. exact E.
Qed.

Ltac payload_in :=
  simpl; repeat split; intros;
  repeat match goal with
  | H : exists _, _ |- _ => destruct H
  | H : In _ _ |- _ => simpl in H
  | H : _ \/ _ |- _ => destruct H
  | H : False |- _ => destruct H
  | H : (_, _) = (_, _) |- _ => injection H; clear H; intros
  end;
  try discriminate; try congruence; eauto 6.

(** A summary or translation request built by [runAction] is sent with a non-
    empty text field, with a document id exactly when the document id is non-
    zero, and, for a translation, with a source language exactly when one is
    set. *)
Theorem run_action_payload (a : action) (force : bool) (p p' : Page) (r : request)
  (Hrun : run_action a force p = (Some r, p')) (Hnt : a <> ATranscribe) :
  exists d t, selected p = Some d /\ truthy t = true /\
    In ("text", JText t) (snd (request_payload r)) /\
    (In ("document_id", JNum (pd_id d)) (snd (request_payload r)) <-> pd_id d <> 0) /\
    (a = ATranslate ->
       (exists s, In ("source_lang", JText s) (snd (request_payload r))) <->
       truthy (source_lang p) = true).
Proof.
  unfold run_action in Hrun. destruct (selected p) as [d|]; [|discriminate].
  destruct a; [congruence| |].
  - destruct (nonnull_truthy (summary_source p d)) as [s|] eqn:Hs; [|discriminate].
    injection Hrun as <- _. apply nonnull_truthy_some in Hs.
    exists d, s. split; [reflexivity|]. split; [exact Hs|].
    simpl. unfold summarize_payload, opt_text_entry, doc_entry, id_truthy. rewrite Hs.
    destruct (Nat.eqb_spec (pd_id d) 0) as [E|E]; payload_in.
  - destruct (nonnull_truthy (translate_source p d)) as [s|] eqn:Hs; [|discriminate].
    injection Hrun as <- _. apply nonnull_truthy_some in Hs.
    exists d, s. split; [reflexivity|]. split; [exact Hs|].
    simpl. unfold translate_payload, opt_text_entry, doc_entry, id_truthy. rewrite Hs.
    destruct (truthy (source_lang p)) eqn:Esrc; rewrite ?Esrc;
    destruct (Nat.eqb_spec (pd_id d) 0) as [E|E]; payload_in;
    exists (source_lang p); simpl; tauto.
Qed.

Lemma run_action_payload_witness :
  exists r p', sample_run = (Some r, p') /\
  exists d t, selected page_notes = Some d /\ truthy t = true /\
    In ("text", JText t) (snd (request_payload r)) /\
    (In ("document_id", JNum (pd_id d)) (snd (request_payload r)) <-> pd_id d <> 0) /\
    (ATranslate = ATranslate ->
       (exists s, In ("source_lang", JText s) (snd (request_payload r))) <->
       truthy (source_lang page_notes) = true).
Proof.
  exists (match fst sample_run with Some r => r | None => ReqTranscribe 0 false end),
         (snd sample_run).
  split; [vm_compute; reflexivity|].
  apply (run_action_payload ATranslate false page_notes (snd sample_run) _);
    [vm_compute; reflexivity | discriminate].
Defined.

End ApiFacts.
